(** * callus-expo: leaderboard scoring/ranking job and optimistic like cache

    A shallow embedding of

    - [src/supabase/functions/update-leaderboard/index.ts]
      (the score calculator, the per-user reducer, the ranking assembler
      and the request handler that republishes the leaderboard), and
    - the like mutation of [src/app/(tabs)/home.tsx]
      ([onMutate], [onError], [onSettled] over the query cache).

    Conventions.  A JavaScript [number] is modelled by an exact number:
    the counters read from the store ([likes], [views], scores, ranks)
    are integers ([Z]); the fractions computed inside [calculateScore]
    are exact rationals ([Q]), so the binary rounding of [0.7] and [0.3]
    is idealised away (a raw score that lies within a rounding error of
    a half can round to the neighbouring integer in binary64; the
    statements below hold on either side of such a half).  A nullable
    field is an [option].  A JS [Map] is
    an association list in insertion order, because the order of
    [values()] feeds a stable sort. *)

From Stdlib Require Import ZArith QArith Qround Lia.
From stdpp Require Import base option list strings gmap sorting.

Local Open Scope Z_scope.

(** ** The fragments of the JavaScript library the code relies on *)

Module JS.

(** [Math.round(x)]: the nearest integer, halves going up. *)
Definition Math_round (x : Q) : Z := Qfloor (x + (1 # 2)).

(** [x > y] on numbers. *)
Definition gt (x y : Q) : bool := negb (Qle_bool x y).

(** [x || d] on a nullable number: [null], [undefined] and [0] are
    falsy. *)
Definition num_or (x : option Z) (d : Z) : Z :=
  match x with
  | Some n => if n =? 0 then d else n
  | None => d
  end.

(** [s || d] on a nullable string: the empty string is falsy too. *)
Definition str_or (s : option string) (d : string) : string :=
  match s with
  | Some x => if decide (x = EmptyString) then d else x
  | None => d
  end.

(** [s || null]. *)
Definition str_or_null (s : option string) : option string :=
  match s with
  | Some x => if decide (x = EmptyString) then None else Some x
  | None => None
  end.

(** [Math.max(...xs, last)]. *)
Definition Math_max_spread (xs : list Z) (last : Z) : Z :=
  foldr Z.max last xs.

End JS.

(** ** [Array.prototype.sort] and [Map] *)

Module JsArray.

(** [Array.prototype.sort(cmp)] is stable: an element moves behind
    another one only when the comparator is positive on them.  For a
    consistent comparator every stable sort returns the same array, so
    the insertion sort below stands for the engine's. *)
Fixpoint sort_insert {A} (cmp : A -> A -> Z) (x : A) (l : list A) : list A :=
  match l with
  | [] => [x]
  | y :: l' => if 0 <? cmp x y then y :: sort_insert cmp x l' else x :: l
  end.

Definition sort {A} (cmp : A -> A -> Z) (l : list A) : list A :=
  foldr (sort_insert cmp) [] l.

End JsArray.

Module JsMap.

(** [Map<string, V>]: entries in insertion order; [set] on a present
    key overwrites the value in place. *)
Definition t (V : Type) : Type := list (string * V).

Fixpoint get {V} (m : t V) (k : string) : option V :=
  match m with
  | [] => None
  | (k', v) :: m' => if decide (k = k') then Some v else get m' k
  end.

Fixpoint set {V} (m : t V) (k : string) (v : V) : t V :=
  match m with
  | [] => [(k, v)]
  | (k', v') :: m' =>
      if decide (k = k') then (k', v) :: m' else (k', v') :: set m' k v
  end.

Definition keys {V} (m : t V) : list string := m.*1.
Definition values {V} (m : t V) : list V := m.*2.
Definition size {V} (m : t V) : nat := length m.

End JsMap.

(** * The leaderboard job: [update-leaderboard/index.ts] *)

Module Leaderboard.

(** ** Data of the leaderboard job *)

Record UserRef := {
  username : option string;
  avatar_url : option string;
}.

(** A row of the [videos] query, as selected by the handler. *)
Record Video := {
  id : string;
  title : string;
  likes : option Z;
  views : option Z;
  user_id : string;
  users : option UserRef;
}.

(** An element of [videoScores]. *)
Record VideoScore := {
  vs_video_id : string;
  vs_user_id : string;
  vs_title : string;
  vs_username : string;
  vs_avatar_url : option string;
  vs_score : Z;
  vs_likes : Z;
  vs_views : Z;
}.

Record UserScore := {
  us_user_id : string;
  us_username : string;
  us_avatar_url : option string;
  best_video_id : string;
  best_video_title : string;
  us_score : Z;
  us_likes : Z;
  us_views : Z;
}.

(** ** Score calculator *)

(** The arithmetic is exact.  The code computes in binary64, where a
    product can fall just below a half that the exact score reaches: for
    3 likes of 4 and no views the code returns 52 and this definition
    53.  Nothing stated below about the calculator depends on the side
    such a half falls on. *)

Definition calculateScore (likes views maxLikes maxViews : Q) : Z :=
  let normalizedLikes := if JS.gt maxLikes 0 then (likes / maxLikes)%Q else 0%Q in
  let normalizedViews := if JS.gt maxViews 0 then (views / maxViews)%Q else 0%Q in
  let score := ((normalizedLikes * (7 # 10) + normalizedViews * (3 # 10)) * 100)%Q in
  Z.min (Z.max (JS.Math_round score) 0) 100.

(** What the specification asks for a negative count: use zero instead. *)
Definition negative_as_zero (x : Q) : Q :=
  if JS.gt 0 x then 0%Q else x.

(** ** Scoring the corpus *)

Definition maxLikes (videos : list Video) : Z :=
  JS.Math_max_spread ((fun v => JS.num_or (likes v) 0) <$> videos) 1.

Definition maxViews (videos : list Video) : Z :=
  JS.Math_max_spread ((fun v => JS.num_or (views v) 0) <$> videos) 1.

Definition videoScore (maxLikes maxViews : Z) (video : Video) : VideoScore :=
  {| vs_video_id := id video;
     vs_user_id := user_id video;
     vs_title := title video;
     vs_username := JS.str_or (users video ≫= username) "Anonymous";
     vs_avatar_url := JS.str_or_null (users video ≫= avatar_url);
     vs_score := calculateScore (inject_Z (JS.num_or (likes video) 0))
                                (inject_Z (JS.num_or (views video) 0))
                                (inject_Z maxLikes) (inject_Z maxViews);
     vs_likes := JS.num_or (likes video) 0;
     vs_views := JS.num_or (views video) 0 |}.

Definition videoScores (videos : list Video) : list VideoScore :=
  videoScore (maxLikes videos) (maxViews videos) <$> videos.

(** ** Per-user best-video reducer *)

Definition toUserScore (video : VideoScore) : UserScore :=
  {| us_user_id := vs_user_id video;
     us_username := vs_username video;
     us_avatar_url := vs_avatar_url video;
     best_video_id := vs_video_id video;
     best_video_title := vs_title video;
     us_score := vs_score video;
     us_likes := vs_likes video;
     us_views := vs_views video |}.

(** The condition of the [if] inside the [forEach] callback. *)
Definition replaces (video : VideoScore) (existingUser : option UserScore) : bool :=
  match existingUser with
  | None => true
  | Some existingUser =>
      (vs_score video >? us_score existingUser)
      || ((vs_score video =? us_score existingUser)
          && (vs_likes video >? us_likes existingUser))
  end.

Definition reduce_step (userBestVideos : JsMap.t UserScore) (video : VideoScore)
  : JsMap.t UserScore :=
  let existingUser := JsMap.get userBestVideos (vs_user_id video) in
  if replaces video existingUser
  then JsMap.set userBestVideos (vs_user_id video) (toUserScore video)
  else userBestVideos.

Definition userBestVideos (videoScores : list VideoScore) : JsMap.t UserScore :=
  foldl reduce_step [] videoScores.

(** The reducer's comparison as the specification words it: a strictly
    greater score, or the same score and strictly more likes. *)
Definition beats_entry (video : VideoScore) (existingUser : UserScore) : Prop :=
  vs_score video > us_score existingUser
  \/ (vs_score video = us_score existingUser
      /\ vs_likes video > us_likes existingUser).

Definition beats (a b : VideoScore) : Prop := beats_entry a (toUserScore b).

(** Two videos that tie on both score and likes. *)
Definition fully_tied (a b : VideoScore) : Prop :=
  vs_score a = vs_score b /\ vs_likes a = vs_likes b.

(** The entry the reducer holds for a user comes from a video [b] of
    that user which beats every earlier video of the user and is beaten
    by no later one. *)
Definition first_best (videoScores : list VideoScore) (u : string) (e : UserScore)
  : Prop :=
  exists pre b post,
    videoScores = pre ++ b :: post
    /\ vs_user_id b = u
    /\ e = toUserScore b
    /\ (forall x, x ∈ pre -> vs_user_id x = u -> beats b x)
    /\ (forall x, x ∈ post -> vs_user_id x = u -> ¬ beats x b).

(** The query orders the rows by [created_at], newest first.  The column
    is not among the selected ones, so the creation time is given apart,
    by video identifier. *)
Definition newest_first (created_at : string -> Z) (videos : list Video) : Prop :=
  StronglySorted (fun a b => created_at (id a) >= created_at (id b)) videos.

(** A scored video, and an entry of the map, with the views blanked:
    used to say that the reducer's choice does not depend on views. *)
Definition without_views (video : VideoScore) : VideoScore :=
  {| vs_video_id := vs_video_id video;
     vs_user_id := vs_user_id video;
     vs_title := vs_title video;
     vs_username := vs_username video;
     vs_avatar_url := vs_avatar_url video;
     vs_score := vs_score video;
     vs_likes := vs_likes video;
     vs_views := 0 |}.

Definition entry_without_views (e : UserScore) : UserScore :=
  {| us_user_id := us_user_id e;
     us_username := us_username e;
     us_avatar_url := us_avatar_url e;
     best_video_id := best_video_id e;
     best_video_title := best_video_title e;
     us_score := us_score e;
     us_likes := us_likes e;
     us_views := 0 |}.

Definition map_without_views (m : JsMap.t UserScore) : JsMap.t UserScore :=
  prod_map (fun k : string => k) entry_without_views <$> m.

(** A scored video of the corpus [videos]. *)
Definition scored (videos : list Video) (video : Video) : VideoScore :=
  videoScore (maxLikes videos) (maxViews videos) video.

(** ** Ranking assembler *)

Record LeaderboardEntry := {
  le_video_id : string;
  le_score : Z;
  le_rank : Z;
  le_created_at : string;
}.

(** The comparator handed to [sort]. *)
Definition compareRankings (a b : UserScore) : Z :=
  if negb (us_score b =? us_score a) then us_score b - us_score a
  else if negb (us_likes b =? us_likes a) then us_likes b - us_likes a
  else us_views b - us_views a.

Definition userRankings (userBestVideos : JsMap.t UserScore) : list UserScore :=
  JsArray.sort compareRankings (JsMap.values userBestVideos).

(** [stamp index] is what [new Date().toISOString()] returns in the
    callback for position [index]. *)
Definition leaderboardEntries (stamp : nat -> string) (userRankings : list UserScore)
  : list LeaderboardEntry :=
  imap (fun index user =>
          {| le_video_id := best_video_id user;
             le_score := us_score user;
             le_rank := Z.of_nat index + 1;
             le_created_at := stamp index |}) userRankings.

Record Top10Entry := {
  t_rank : Z;
  t_user_id : string;
  t_username : string;
  t_avatar_url : option string;
  t_best_video_id : string;
  t_best_video_title : string;
  t_score : Z;
  t_likes : Z;
  t_views : Z;
}.

Definition top10 (userRankings : list UserScore) : list Top10Entry :=
  imap (fun index user =>
          {| t_rank := Z.of_nat index + 1;
             t_user_id := us_user_id user;
             t_username := us_username user;
             t_avatar_url := us_avatar_url user;
             t_best_video_id := best_video_id user;
             t_best_video_title := best_video_title user;
             t_score := us_score user;
             t_likes := us_likes user;
             t_views := us_views user |}) (take 10 userRankings).

(** The order the specification words for the ranking: score first, then
    likes, then views, larger first. *)
Definition ranks_before (a b : UserScore) : Prop :=
  us_score a > us_score b
  \/ (us_score a = us_score b
      /\ (us_likes a > us_likes b
          \/ (us_likes a = us_likes b /\ us_views a >= us_views b))).

(** ** The store, the clock and the handler *)

(** The error object of a failed store call; the handler only reads
    [message]. *)
Record PgError := { message : option string }.

Record LeaderboardRow := {
  row_id : string;
  row_entry : LeaderboardEntry;
}.

Inductive DbCall :=
| SelectVideos
| DeleteLeaderboard
| InsertLeaderboard (entries : list LeaderboardEntry).

(** What the outside answers during one invocation: the [{data, error}]
    of the [videos] query, whether the delete and the insert fail, the
    identifiers the store gives to new rows, and the successive readings
    of the clock. *)
Record Env := {
  select_videos : PgError + option (list Video);
  delete_error : option PgError;
  insert_error : option PgError;
  new_row_id : nat -> string;
  clock : nat -> string;
}.

(** The persisted [leaderboard] table, the store calls issued so far and
    the number of clock readings so far.  A store call that reports an
    error leaves the table as it was. *)
Record World := {
  leaderboard : list LeaderboardRow;
  calls : list DbCall;
  ticks : nat;
}.

Definition nil_uuid : string := "00000000-0000-0000-0000-000000000000".

(** Computations of the handler: they read and write the world and may
    throw. *)
Definition M (A : Type) : Type := World -> (PgError + A) * World.

Definition ret {A} (a : A) : M A := fun w => (inr a, w).

Definition bind {A B} (m : M A) (k : A -> M B) : M B :=
  fun w => match m w with
           | (inl e, w') => (inl e, w')
           | (inr a, w') => k a w'
           end.

Definition throw {A} (e : PgError) : M A := fun w => (inl e, w).

Notation "'let!' x ':=' m 'in' k" := (bind m (fun x => k))
  (at level 10, x name, m at level 100, k at level 200).

Definition record_call (c : DbCall) (w : World) : World :=
  {| leaderboard := leaderboard w; calls := calls w ++ [c]; ticks := ticks w |}.

Definition set_leaderboard (rows : list LeaderboardRow) (w : World) : World :=
  {| leaderboard := rows; calls := calls w; ticks := ticks w |}.

Definition advance (n : nat) (w : World) : World :=
  {| leaderboard := leaderboard w; calls := calls w; ticks := (ticks w + n)%nat |}.

(** [supabase.from('videos').select(...).order(...)]. *)
Definition db_select_videos (env : Env) : M (PgError + option (list Video)) :=
  fun w => (inr (select_videos env), record_call SelectVideos w).

(** [supabase.from('leaderboard').delete().neq('id', nil_uuid)]. *)
Definition db_delete_leaderboard (env : Env) : M (option PgError) :=
  fun w =>
    let w := record_call DeleteLeaderboard w in
    match delete_error env with
    | Some e => (inr (Some e), w)
    | None =>
        (inr None,
         set_leaderboard (filter (fun r => row_id r = nil_uuid) (leaderboard w)) w)
    end.

(** [supabase.from('leaderboard').insert(entries)]. *)
Definition db_insert_leaderboard (env : Env) (entries : list LeaderboardEntry)
  : M (option PgError) :=
  fun w =>
    let w := record_call (InsertLeaderboard entries) w in
    match insert_error env with
    | Some e => (inr (Some e), w)
    | None =>
        (inr None,
         set_leaderboard
           (leaderboard w
            ++ imap (fun k e => {| row_id := new_row_id env k; row_entry := e |}) entries)
           w)
    end.

(** [new Date().toISOString()]. *)
Definition now (env : Env) : M string :=
  fun w => (inr (clock env (ticks w)), advance 1 w).

(** [userRankings.map(...)], one clock reading per element. *)
Definition stamped_entries (env : Env) (userRankings : list UserScore)
  : M (list LeaderboardEntry) :=
  fun w =>
    (inr (leaderboardEntries (fun index => clock env (ticks w + index)%nat) userRankings),
     advance (length userRankings) w).

Inductive Body :=
| BodyText (text : string)
| BodyNoVideos (message : string) (updated : Z)
| BodyUpdated (message : string) (updated : Z) (total_users : Z)
              (timestamp : string) (top10 : list Top10Entry)
| BodyError (error : string) (timestamp : string).

Record Response := {
  status : Z;
  headers : list (string * string);
  body : Body;
}.

Record Request := { method : string }.

Definition corsHeaders : list (string * string) :=
  [("Access-Control-Allow-Origin", "*");
   ("Access-Control-Allow-Headers",
    "authorization, x-client-info, apikey, content-type")].

Definition jsonHeaders : list (string * string) :=
  corsHeaders ++ [("Content-Type", "application/json")].

(** The body of the [try] block. *)
Definition update_leaderboard (env : Env) : M Response :=
  let! fetched := db_select_videos env in
  match fetched with
  | inl fetchError => throw fetchError
  | inr None | inr (Some []) =>
      ret {| status := 200; headers := jsonHeaders;
             body := BodyNoVideos "No videos found" 0 |}
  | inr (Some videos) =>
      let videoScores := videoScores videos in
      let userBestVideos := userBestVideos videoScores in
      let userRankings := userRankings userBestVideos in
      let! leaderboardEntries := stamped_entries env userRankings in
      let! deleteError := db_delete_leaderboard env in
      match deleteError with
      | Some deleteError => throw deleteError
      | None =>
          let! insertError := db_insert_leaderboard env leaderboardEntries in
          match insertError with
          | Some insertError => throw insertError
          | None =>
              let! timestamp := now env in
              ret {| status := 200; headers := jsonHeaders;
                     body := BodyUpdated "Leaderboard updated successfully"
                               (Z.of_nat (length leaderboardEntries))
                               (Z.of_nat (JsMap.size userBestVideos))
                               timestamp
                               (top10 userRankings) |}
          end
      end
  end.

(** [Deno.serve(async (req) => ...)]: the preflight answer, the [try]
    block and its [catch]. *)
Definition handler (env : Env) (req : Request) (w : World) : Response * World :=
  if decide (method req = "OPTIONS")
  then ({| status := 200; headers := corsHeaders; body := BodyText "ok" |}, w)
  else
    match update_leaderboard env w with
    | (inr response, w') => (response, w')
    | (inl error, w') =>
        ({| status := 500; headers := jsonHeaders;
            body := BodyError (JS.str_or (message error) "Internal server error")
                              (clock env (ticks w')) |},
         advance 1 w')
    end.

(** What the response reports as [updated], when it reports it. *)
Definition updated_of (r : Response) : option Z :=
  match body r with
  | BodyNoVideos _ n => Some n
  | BodyUpdated _ n _ _ _ => Some n
  | _ => None
  end.

(** The store calls one invocation adds to the log. *)
Definition issued (env : Env) (req : Request) (w : World) : list DbCall :=
  drop (length (calls w)) (calls (handler env req w).2).

(** The entries one invocation computes from the fetched rows. *)
Definition computed_entries (env : Env) (w : World) (videos : list Video)
  : list LeaderboardEntry :=
  leaderboardEntries (fun index => clock env (ticks w + index)%nat)
    (userRankings (userBestVideos (videoScores videos))).

(** ** Notions used to state further properties of the job *)

(** The distinct elements of a list, each at its first occurrence. *)
Fixpoint first_occurrences (l : list string) : list string :=
  match l with
  | [] => []
  | x :: l' => x :: filter (fun y => y ≠ x) (first_occurrences l')
  end.

(** Entries the comparator of the sort cannot tell apart. *)
Definition same_rank_key (a b : UserScore) : Prop :=
  us_score a = us_score b /\ us_likes a = us_likes b /\ us_views a = us_views b.

Global Instance same_rank_key_dec (a b : UserScore) : Decision (same_rank_key a b).
Proof. unfold same_rank_key. apply _. Defined.

(** The rows a successful insert adds to the table. *)
Definition inserted_rows (env : Env) (entries : list LeaderboardEntry)
  : list LeaderboardRow :=
  imap (fun k e => {| row_id := new_row_id env k; row_entry := e |}) entries.

(** The rows of the table a delete leaves in place. *)
Definition surviving_rows (rows : list LeaderboardRow) : list LeaderboardRow :=
  filter (fun r => row_id r = nil_uuid) rows.

(** ** Sample data *)

Definition sample_scores : list VideoScore :=
  [ {| vs_video_id := "v1"; vs_user_id := "u1"; vs_title := "a";
       vs_username := "ann"; vs_avatar_url := None;
       vs_score := 80; vs_likes := 5; vs_views := 9 |};
    {| vs_video_id := "v2"; vs_user_id := "u1"; vs_title := "b";
       vs_username := "ann"; vs_avatar_url := None;
       vs_score := 80; vs_likes := 10; vs_views := 1 |};
    {| vs_video_id := "v3"; vs_user_id := "u2"; vs_title := "c";
       vs_username := "bob"; vs_avatar_url := None;
       vs_score := 80; vs_likes := 10; vs_views := 7 |};
    {| vs_video_id := "v4"; vs_user_id := "u1"; vs_title := "d";
       vs_username := "ann"; vs_avatar_url := None;
       vs_score := 90; vs_likes := 1; vs_views := 0 |} ].

(** A corpus fetched newest first, with two fully tied videos of the
    user [u1]. *)
Definition sample_videos : list Video :=
  [ {| id := "n"; title := "new"; likes := Some 5; views := Some 50;
       user_id := "u1";
       users := Some {| username := Some "ann"; avatar_url := None |} |};
    {| id := "t"; title := "top"; likes := Some 10; views := Some 100;
       user_id := "u2"; users := None |};
    {| id := "o"; title := "old"; likes := Some 5; views := Some 50;
       user_id := "u1";
       users := Some {| username := Some "ann"; avatar_url := None |} |} ].

Definition sample_created_at (video_id : string) : Z :=
  if decide (video_id = "n") then 30
  else if decide (video_id = "t") then 20
  else 10.

(** Two reduced entries that tie on score and likes and differ in views. *)
Definition sample_entries : JsMap.t UserScore :=
  [ ("u2", {| us_user_id := "u2"; us_username := "bob"; us_avatar_url := None;
              best_video_id := "b"; best_video_title := "b";
              us_score := 50; us_likes := 2; us_views := 50 |});
    ("u1", {| us_user_id := "u1"; us_username := "ann"; us_avatar_url := None;
              best_video_id := "a"; best_video_title := "a";
              us_score := 50; us_likes := 2; us_views := 100 |}) ].

(** A job run on an empty corpus while a leaderboard is published. *)
Definition empty_corpus_env : Env :=
  {| select_videos := inr (Some []);
     delete_error := None;
     insert_error := None;
     new_row_id := fun _ => "row";
     clock := fun _ => "2025-01-01T00:00:00.000Z" |}.

Definition failing_read_env : Env :=
  {| select_videos := inl {| message := Some "connection lost" |};
     delete_error := None;
     insert_error := None;
     new_row_id := fun _ => "row";
     clock := fun _ => "2025-01-01T00:00:00.000Z" |}.

Definition sample_env : Env :=
  {| select_videos := inr (Some sample_videos);
     delete_error := None;
     insert_error := None;
     new_row_id := fun k => if decide (k = 0%nat) then "r0" else "r1";
     clock := fun _ => "2025-01-01T00:00:00.000Z" |}.

Definition post : Request := {| method := "POST" |}.

Definition published_world : World :=
  {| leaderboard :=
       [ {| row_id := "r";
            row_entry := {| le_video_id := "gone"; le_score := 100; le_rank := 1;
                            le_created_at := "2024-12-31T00:00:00.000Z" |} |} ];
     calls := [];
     ticks := 0 |}.

End Leaderboard.

(** * The like mutation of the feed: [app/(tabs)/home.tsx] *)

Module Home.

Module User.
Record t := {
  id : string;
  username : string;
  fullname : string;
  email : string;
  avatar_url : string;
  created_at : string;
}.
End User.

Record DanceVideo := {
  id : string;
  title : string;
  description : string;
  category : string;
  video_url : string;
  views : Z;
  likes : Z;
  liked_by : option (list string);
  user_id : string;
  created_at : string;
  user : User.t;
}.

(** [{ ...video, likes, liked_by }]. *)
Definition with_likes (video : DanceVideo) (likes' : Z) (liked_by' : list string)
  : DanceVideo :=
  {| id := id video;
     title := title video;
     description := description video;
     category := category video;
     video_url := video_url video;
     views := views video;
     likes := likes';
     liked_by := Some liked_by';
     user_id := user_id video;
     created_at := created_at video;
     user := user video |}.

Inductive Action := like | dislike.

Global Instance Action_eq_dec : EqDecision Action.
Proof. solve_decision. Defined.

Record Variables := {
  v_id : string;
  v_action : Action;
}.

(** What [onMutate] returns to [onError]. *)
Record Context := {
  previousVideos : option (list DanceVideo);
  previousLikedState : bool;
}.

(** The state the mutation callbacks work on: the signed-in user (only
    its [id] is read), the data cached under the key [danceVideos],
    whether a refetch of that key has been asked for, and the component's
    [likedVideos] set. *)
Record State := {
  session_user : option string;
  queryData : option (list DanceVideo);
  refetch_requested : bool;
  likedVideos : gset string;
}.

(** The callback of [old.map] inside the optimistic update. *)
Definition optimistic (user_id : string) (id' : string) (action : Action)
    (video : DanceVideo) : DanceVideo :=
  if decide (id video = id') then
    let currentLikedBy := default [] (liked_by video) in
    let isCurrentlyLiked := bool_decide (user_id ∈ currentLikedBy) in
    if bool_decide (action = like) && negb isCurrentlyLiked then
      with_likes video (likes video + 1) (currentLikedBy ++ [user_id])
    else if bool_decide (action = dislike) && isCurrentlyLiked then
      with_likes video (Z.max 0 (likes video - 1))
                 (filter (fun uid => uid ≠ user_id) currentLikedBy)
    else video
  else video.

(** [queryClient.setQueryData(key, updater)]: an updater that returns
    [undefined] leaves the cache as it is. *)
Definition setQueryData
    (updater : option (list DanceVideo) -> option (list DanceVideo)) (st : State)
  : State :=
  match updater (queryData st) with
  | None => st
  | Some data =>
      {| session_user := session_user st;
         queryData := Some data;
         refetch_requested := refetch_requested st;
         likedVideos := likedVideos st |}
  end.

Definition setLikedVideos (f : gset string -> gset string) (st : State) : State :=
  {| session_user := session_user st;
     queryData := queryData st;
     refetch_requested := refetch_requested st;
     likedVideos := f (likedVideos st) |}.

Definition onMutate (st : State) (variables : Variables) : State * option Context :=
  match session_user st with
  | None => (st, None)
  | Some user_id =>
      let previousVideos := queryData st in
      let previousLikedState := bool_decide (v_id variables ∈ likedVideos st) in
      let st :=
        setQueryData
          (fun old =>
             match old with
             | None => old
             | Some old =>
                 Some (optimistic user_id (v_id variables) (v_action variables) <$> old)
             end) st in
      let st :=
        setLikedVideos
          (fun prev => if bool_decide (v_action variables = like)
                       then prev ∪ {[ v_id variables ]}
                       else prev ∖ {[ v_id variables ]}) st in
      (st, Some {| previousVideos := previousVideos;
                   previousLikedState := previousLikedState |})
  end.

Definition onError (st : State) (variables : Variables) (context : option Context)
  : State :=
  let st :=
    match context ≫= previousVideos with
    | Some previousVideos => setQueryData (fun _ => Some previousVideos) st
    | None => st
    end in
  setLikedVideos
    (fun prev =>
       match context with
       | Some context =>
           if previousLikedState context
           then prev ∪ {[ v_id variables ]}
           else prev ∖ {[ v_id variables ]}
       | None => prev
       end) st.

(** [queryClient.invalidateQueries(key)]. *)
Definition onSettled (st : State) : State :=
  {| session_user := session_user st;
     queryData := queryData st;
     refetch_requested := true;
     likedVideos := likedVideos st |}.

(** One like or unlike whose remote call fails: [onMutate], then
    [onError] with the context [onMutate] returned, then [onSettled]. *)
Definition failed_mutation (st : State) (variables : Variables) : State :=
  let '(st1, context) := onMutate st variables in
  onSettled (onError st1 variables context).

(** A run of optimistic applications, one [onMutate] after the other. *)
Definition optimistic_run (st : State) (vs : list Variables) : State :=
  foldl (fun st variables => (onMutate st variables).1) st vs.

(** The entry of the cache for a video identifier. *)
Definition cached (st : State) (id' : string) : option DanceVideo :=
  match queryData st with
  | None => None
  | Some videos => List.find (fun video => bool_decide (id video = id')) videos
  end.

(** The part of a cached video the like mutation is about. *)
Definition like_state (video : DanceVideo) : Z * option (list string) :=
  (likes video, liked_by video).

(** ** The view mutation *)

(** [{ ...video, views }]. *)
Definition with_views (video : DanceVideo) (views' : Z) : DanceVideo :=
  {| id := id video;
     title := title video;
     description := description video;
     category := category video;
     video_url := video_url video;
     views := views';
     likes := likes video;
     liked_by := liked_by video;
     user_id := user_id video;
     created_at := created_at video;
     user := user video |}.

(** The callback of [old.map] inside the optimistic view update. *)
Definition view_increment (id' : string) (video : DanceVideo) : DanceVideo :=
  if decide (id video = id') then with_views video (views video + 1) else video.

Record ViewContext := {
  view_previousVideos : option (list DanceVideo);
}.

Definition viewMutation_onMutate (st : State) (id' : string) : State * ViewContext :=
  let previousVideos := queryData st in
  let st :=
    setQueryData
      (fun old =>
         match old with
         | None => old
         | Some old => Some (view_increment id' <$> old)
         end) st in
  (st, {| view_previousVideos := previousVideos |}).

Definition viewMutation_onError (st : State) (context : option ViewContext) : State :=
  match context ≫= view_previousVideos with
  | Some previousVideos => setQueryData (fun _ => Some previousVideos) st
  | None => st
  end.

(** One view increment whose remote call fails. *)
Definition failed_view (st : State) (id' : string) : State :=
  let '(st1, context) := viewMutation_onMutate st id' in
  onSettled (viewMutation_onError st1 (Some context)).

(** ** The component: liked set, like button, viewable items *)

(** The set the effect on [videos] and [user] computes. *)
Definition derivedLikedVideos (user_id : string) (videos : list DanceVideo)
  : gset string :=
  list_to_set
    (id <$> filter (fun video => user_id ∈ default [] (liked_by video)) videos).

(** The effect that initialises [likedVideos] from the fetched videos. *)
Definition initLikedVideos (st : State) : State :=
  match queryData st, session_user st with
  | Some videos, Some user_id =>
      setLikedVideos (fun _ => derivedLikedVideos user_id videos) st
  | _, _ => st
  end.

(** The action [handleLikeDislikePress] chooses. *)
Definition pressAction (st : State) (videoId : string) : Action :=
  if bool_decide (videoId ∈ likedVideos st) then dislike else like.

(** [handleLikeDislikePress], up to the end of the [onMutate] of the
    mutation it starts. *)
Definition handleLikeDislikePress (st : State) (videoId : string) : State :=
  match session_user st with
  | None => st
  | Some _ =>
      (onMutate st {| v_id := videoId; v_action := pressAction st videoId |}).1
  end.

(** An element of [viewableItems]: [item.id] and [index]. *)
Record ViewToken := {
  vt_id : string;
  vt_index : nat;
}.

(** The state [onViewableItemsChanged] works on; [view_calls] lists the
    identifiers handed to [viewMutation.mutate], oldest first. *)
Record Feed := {
  feed_state : State;
  currentIndex : nat;
  paused : bool;
  showPlayPauseIcon : bool;
  viewedVideos : gset string;
  view_calls : list string;
}.

Definition initialFeed (st : State) : Feed :=
  {| feed_state := st;
     currentIndex := 0;
     paused := false;
     showPlayPauseIcon := false;
     viewedVideos := ∅;
     view_calls := [] |}.

(** [onViewableItemsChanged], up to the end of the [onMutate] of the view
    mutation it may start. *)
Definition onViewableItemsChanged (feed : Feed) (viewableItems : list ViewToken)
  : Feed :=
  match viewableItems with
  | [] => feed
  | first :: _ =>
      let currentVideoId := vt_id first in
      if bool_decide (currentVideoId ∈ viewedVideos feed) then
        {| feed_state := feed_state feed;
           currentIndex := vt_index first;
           paused := false;
           showPlayPauseIcon := true;
           viewedVideos := viewedVideos feed;
           view_calls := view_calls feed |}
      else
        {| feed_state := (viewMutation_onMutate (feed_state feed) currentVideoId).1;
           currentIndex := vt_index first;
           paused := false;
           showPlayPauseIcon := true;
           viewedVideos := viewedVideos feed ∪ {[ currentVideoId ]};
           view_calls := view_calls feed ++ [currentVideoId] |}
  end.

Definition feed_run (feed : Feed) (events : list (list ViewToken)) : Feed :=
  foldl onViewableItemsChanged feed events.

(** ** Notions used to state further properties of the cache *)

(** A cached video whose counter agrees with its list of likers. *)
Definition consistent (video : DanceVideo) : Prop :=
  NoDup (default [] (liked_by video))
  /\ likes video = Z.of_nat (length (default [] (liked_by video))).

(** A video with its likes counter and its list of likers blanked. *)
Definition without_likes (video : DanceVideo) : DanceVideo :=
  with_likes video 0 [].

(** The videos of the cache, none when nothing is cached. *)
Definition cachedVideos (st : State) : list DanceVideo :=
  default [] (queryData st).

(** ** Sample data *)

Definition sample_user : User.t :=
  {| User.id := "owner"; User.username := "ann"; User.fullname := "Ann";
     User.email := "ann@example.org"; User.avatar_url := "a.png";
     User.created_at := "2025-01-01" |}.

Definition sample_video : DanceVideo :=
  {| id := "v"; title := "t"; description := "d"; category := "c";
     video_url := "u"; views := 3; likes := 1; liked_by := Some ["other"];
     user_id := "owner"; created_at := "2025-01-02"; user := sample_user |}.

Definition sample_state : State :=
  {| session_user := Some "me";
     queryData := Some [sample_video];
     refetch_requested := false;
     likedVideos := ∅ |}.

Definition like_v : Variables := {| v_id := "v"; v_action := like |}.
Definition dislike_v : Variables := {| v_id := "v"; v_action := dislike |}.

(** A cached video the user is recorded to like although its counter is
    already zero. *)
Definition drained_video : DanceVideo :=
  {| id := "v"; title := "t"; description := "d"; category := "c";
     video_url := "u"; views := 3; likes := 0; liked_by := Some ["me"];
     user_id := "owner"; created_at := "2025-01-02"; user := sample_user |}.

Definition drained_state : State :=
  {| session_user := Some "me";
     queryData := Some [drained_video];
     refetch_requested := false;
     likedVideos := {[ "v" ]} |}.

End Home.

(** * The remote like call and the life of a like mutation *)

Module Api.

(** The remote procedures of the store the like call uses, with their
    parameters [video_id_param] and [user_id_param]. *)
Inductive Rpc :=
| like_video (video_id_param user_id_param : string)
| unlike_video (video_id_param user_id_param : string).

(** What the call throws. *)
Inductive Failure :=
| Error (message : string)
| RpcFailure (error : Leaderboard.PgError).

(** What the outside answers: the user of the session, if any, as
    [supabase.auth.getUser()] gives it (only its [id] is read), and the
    error, if any, each remote procedure call reports. *)
Record Env := {
  auth_user : option string;
  rpc_error : Rpc -> option Leaderboard.PgError;
}.

(** [handleLikeDislike]: what it returns or throws, and the remote
    procedure calls it made. *)
Definition handleLikeDislike (env : Env) (id' : string) (action : Home.Action)
  : (Failure + unit) * list Rpc :=
  match auth_user env with
  | None => (inl (Error "User not authenticated"), [])
  | Some user_id =>
      let call :=
        if bool_decide (action = Home.like)
        then like_video id' user_id
        else unlike_video id' user_id in
      match rpc_error env call with
      | Some error => (inl (RpcFailure error), [call])
      | None => (inr tt, [call])
      end
  end.

(** [likeMutation.mutate(variables)]: [onMutate], the mutation function,
    [onError] when it throws, and [onSettled]. *)
Definition likeMutation_mutate (env : Env) (st : Home.State)
    (variables : Home.Variables) : Home.State * list Rpc :=
  let '(st1, context) := Home.onMutate st variables in
  match handleLikeDislike env (Home.v_id variables) (Home.v_action variables) with
  | (inl _, calls) => (Home.onSettled (Home.onError st1 variables context), calls)
  | (inr _, calls) => (Home.onSettled st1, calls)
  end.

End Api.

(** * The leaderboard screen: [app/(tabs)/leaderboard.tsx] *)

Module LeaderboardScreen.

(** The rows [getLeaderBoardDetails] returns: a leaderboard row joined
    with its video and the video's user, any of which may be missing. *)
Record ScreenUser := {
  id : option string;
  username : option string;
  avatar_url : option string;
  email : option string;
  fullname : option string;
}.

Record ScreenVideo := {
  user : option ScreenUser;
  likes : option Z;
  views : option Z;
  title : option string;
}.

Record LeaderboardEntry := {
  entry_id : string;
  rank : option Z;
  score : Z;
  video : option ScreenVideo;
}.

(** An element of [transformedData]. *)
Record Row := {
  row_id : string;
  row_rank : Z;
  row_username : string;
  row_fullname : string;
  row_avatar_url : option string;
  total_score : Z;
  total_likes : Z;
  row_user_id : option string;
}.

(** [item.video?.user]. *)
Definition video_user (item : LeaderboardEntry) : option ScreenUser :=
  video item ≫= user.

Definition transformedData (leaderboardData : option (list LeaderboardEntry))
  : list Row :=
  match leaderboardData with
  | None => []
  | Some leaderboardData =>
      imap (fun index item =>
              {| row_id := entry_id item;
                 row_rank := JS.num_or (rank item) (Z.of_nat index + 1);
                 row_username :=
                   JS.str_or (video_user item ≫= username) "anonymous";
                 row_fullname :=
                   JS.str_or (video_user item ≫= fullname) "anonymous";
                 row_avatar_url := video_user item ≫= avatar_url;
                 total_score := score item;
                 total_likes := JS.num_or (video item ≫= likes) 0;
                 row_user_id := video_user item ≫= id |})
           leaderboardData
  end.

Record RankIcon := {
  icon : string;
  color : string;
}.

Definition getRankIcon (rank : Z) : option RankIcon :=
  if rank =? 1 then Some {| icon := "trophy"; color := "#FFD700" |}
  else if rank =? 2 then Some {| icon := "trophy"; color := "#C0C0C0" |}
  else if rank =? 3 then Some {| icon := "trophy"; color := "#CD7F32" |}
  else None.

(** A row of the screen's query that shows an entry the job published. *)
Definition shows (item : LeaderboardEntry) (entry : Leaderboard.LeaderboardEntry)
  : Prop :=
  rank item = Some (Leaderboard.le_rank entry)
  /\ score item = Leaderboard.le_score entry.

End LeaderboardScreen.

(** * Properties of the score calculator *)

Section ScoreCalculator.
Import Leaderboard.

Lemma gt_true (x y : Q) : JS.gt x y = true <-> (y < x)%Q.
Proof.
  unfold JS.gt. rewrite negb_true_iff, <- not_true_iff_false, Qle_bool_iff.
  split; [apply Qnot_le_lt | apply Qlt_not_le].
Qed.

Lemma gt_false (x y : Q) : JS.gt x y = false <-> (x <= y)%Q.
Proof.
  unfold JS.gt. rewrite negb_false_iff. apply Qle_bool_iff.
Qed.

Lemma Math_round_mono (x y : Q) :
  (x <= y)%Q -> JS.Math_round x <= JS.Math_round y.
Proof.
  intros Hxy. unfold JS.Math_round.
  apply Qfloor_resp_le, Qplus_le_compat; [exact Hxy | apply Qle_refl].
Qed.

Lemma Math_round_integer (n : Z) : JS.Math_round (inject_Z n) = n.
Proof.
  unfold JS.Math_round. apply Z.le_antisymm.
  - apply Z.lt_succ_r. rewrite Zlt_Qlt.
    eapply Qle_lt_trans; [apply Qfloor_le|].
    unfold Qlt, Qplus, inject_Z; simpl. lia.
  - rewrite <- (Qfloor_Z n) at 1. apply Qfloor_resp_le.
    unfold Qle, Qplus, inject_Z; simpl. lia.
Qed.

Lemma normalized_mono (x x' m : Q) :
  (x <= x')%Q ->
  ((if JS.gt m 0 then x / m else 0) <= (if JS.gt m 0 then x' / m else 0))%Q.
Proof.
  intros Hx. destruct (JS.gt m 0) eqn:Hm; [|apply Qle_refl].
  apply gt_true in Hm. unfold Qdiv.
  apply Qmult_le_compat_r; [exact Hx|].
  apply Qinv_le_0_compat, Qlt_le_weak, Hm.
Qed.

(** More likes or more views never lower the score. *)
Lemma calculateScore_mono (likes likes' views views' maxLikes maxViews : Q) :
  (likes <= likes')%Q -> (views <= views')%Q ->
  calculateScore likes views maxLikes maxViews
  <= calculateScore likes' views' maxLikes maxViews.
Proof.
  intros Hl Hv. unfold calculateScore.
  apply Z.min_le_compat_r, Z.max_le_compat_r, Math_round_mono.
  apply Qmult_le_compat_r; [|discriminate].
  apply Qplus_le_compat; (apply Qmult_le_compat_r; [|discriminate]);
    apply normalized_mono; assumption.
Qed.

Lemma negative_as_zero_ge (x : Q) : (x <= negative_as_zero x)%Q.
Proof.
  unfold negative_as_zero. destruct (JS.gt 0 x) eqn:Hx.
  - apply gt_true in Hx. apply Qlt_le_weak, Hx.
  - apply Qle_refl.
Qed.

Lemma calculateScore_zero (maxLikes maxViews : Q) :
  calculateScore 0 0 maxLikes maxViews = 0.
Proof.
  unfold calculateScore.
  assert (Hraw : ((if JS.gt maxLikes 0 then 0 / maxLikes else 0) * (7 # 10)
                  + (if JS.gt maxViews 0 then 0 / maxViews else 0) * (3 # 10)) * 100
                 == inject_Z 0).
  { destruct (JS.gt maxLikes 0), (JS.gt maxViews 0); unfold Qdiv; ring. }
  unfold JS.Math_round. rewrite Hraw.
  change (Qfloor (inject_Z 0 + (1 # 2))) with (JS.Math_round (inject_Z 0)).
  rewrite Math_round_integer. reflexivity.
Qed.

Lemma calculateScore_full (maxLikes maxViews : Q) :
  (1 <= maxLikes)%Q -> (1 <= maxViews)%Q ->
  calculateScore maxLikes maxViews maxLikes maxViews = 100.
Proof.
  intros HL HV. unfold calculateScore.
  assert (HL' : (0 < maxLikes)%Q) by (eapply Qlt_le_trans; [|exact HL]; reflexivity).
  assert (HV' : (0 < maxViews)%Q) by (eapply Qlt_le_trans; [|exact HV]; reflexivity).
  rewrite (proj2 (gt_true _ _) HL'), (proj2 (gt_true _ _) HV').
  assert (Hraw : (maxLikes / maxLikes * (7 # 10) + maxViews / maxViews * (3 # 10)) * 100
                 == inject_Z 100).
  { field. split; intros H0; [rewrite H0 in HV' | rewrite H0 in HL']; discriminate. }
  unfold JS.Math_round. rewrite Hraw.
  change (Qfloor (inject_Z 100 + (1 # 2))) with (JS.Math_round (inject_Z 100)).
  rewrite Math_round_integer. reflexivity.
Qed.

Example score_zero : calculateScore 0 0 10 100 = 0.
Proof. reflexivity. Qed.

Example score_max : calculateScore 10 100 10 100 = 100.
Proof. reflexivity. Qed.

Example score_half : calculateScore 5 50 10 100 = 50.
Proof. reflexivity. Qed.

Example score_round_half_up : calculateScore 1 0 4 1 = 18.
Proof. reflexivity. Qed.

Example score_negative_likes : calculateScore (-10) 100 10 100 = 0.
Proof. reflexivity. Qed.

Example score_likes_as_zero : calculateScore 0 100 10 100 = 30.
Proof. reflexivity. Qed.

(** C1.  For non-negative [likes] and [views] and for [maxLikes] and
    [maxViews] at least 1, the score calculator returns an integer
    between 0 and 100 inclusive. *)
Theorem calculateScore_range (likes views maxLikes maxViews : Q) :
  (0 <= likes)%Q -> (0 <= views)%Q -> (1 <= maxLikes)%Q -> (1 <= maxViews)%Q ->
  0 <= calculateScore likes views maxLikes maxViews <= 100.
Proof.
  intros _ _ _ _. unfold calculateScore. lia.
Qed.

Lemma calculateScore_range_witness :
  0 <= calculateScore 5 50 10 100 <= 100.
Proof.
  apply (calculateScore_range 5 50 10 100); discriminate.
Defined.

(** C8 as stated fails: with [likes = -10] the calculator returns 0,
    while with that input replaced by zero it returns 30. *)
Lemma calculateScore_negative_counterexample :
  calculateScore (-10) 100 10 100
  <> calculateScore (negative_as_zero (-10)) (negative_as_zero 100) 10 100.
Proof.
  vm_compute. discriminate.
Qed.

(** C8, amended.  A negative [likes] or [views] enters the weighted sum
    as it is and only the rounded total is clamped, so the result is at
    most the score computed with the negative inputs replaced by zero. *)
Theorem calculateScore_negative_le (likes views maxLikes maxViews : Q) :
  calculateScore likes views maxLikes maxViews
  <= calculateScore (negative_as_zero likes) (negative_as_zero views)
                    maxLikes maxViews.
Proof.
  apply calculateScore_mono; apply negative_as_zero_ge.
Qed.

End ScoreCalculator.

(** * Properties of the insertion-ordered map *)

Section JsMapFacts.
Context {V : Type}.
Implicit Types (m : JsMap.t V) (k : string) (v : V).

Lemma get_set_eq m k v : JsMap.get (JsMap.set m k v) k = Some v.
Proof.
  induction m as [|[k' v'] m IH]; simpl.
  - by rewrite decide_True.
  - destruct (decide (k = k')) as [->|Hne]; simpl.
    + by rewrite decide_True.
    + by rewrite decide_False.
Qed.

Lemma get_set_ne m k k' v :
  k ≠ k' -> JsMap.get (JsMap.set m k v) k' = JsMap.get m k'.
Proof.
  intros Hne. induction m as [|[k0 v0] m IH]; simpl.
  - by rewrite decide_False.
  - destruct (decide (k = k0)) as [->|Hk]; simpl.
    + by rewrite !(decide_False (P := k' = k0)).
    + destruct (decide (k' = k0)); [done | exact IH].
Qed.

Lemma get_is_Some m k : is_Some (JsMap.get m k) <-> k ∈ JsMap.keys m.
Proof.
  unfold JsMap.keys. induction m as [|[k' v'] m IH]; simpl.
  - split; [intros [? ?]; discriminate | intros H; inversion H].
  - rewrite elem_of_cons. destruct (decide (k = k')) as [->|Hne].
    + split; [by left | by eexists].
    + rewrite IH. split; [by right | by intros [?|?]].
Qed.

Lemma get_None m k : JsMap.get m k = None <-> k ∉ JsMap.keys m.
Proof.
  rewrite <- get_is_Some, eq_None_not_Some. done.
Qed.

Lemma keys_set_present m k v :
  k ∈ JsMap.keys m -> JsMap.keys (JsMap.set m k v) = JsMap.keys m.
Proof.
  unfold JsMap.keys. induction m as [|[k' v'] m IH]; simpl.
  - intros H; inversion H.
  - rewrite elem_of_cons. intros Hin.
    destruct (decide (k = k')) as [->|Hne]; simpl; [done|].
    f_equal. apply IH. by destruct Hin.
Qed.

Lemma keys_set_absent m k v :
  k ∉ JsMap.keys m -> JsMap.keys (JsMap.set m k v) = JsMap.keys m ++ [k].
Proof.
  unfold JsMap.keys. induction m as [|[k' v'] m IH]; simpl; [done|].
  rewrite not_elem_of_cons. intros [Hne Hnin].
  rewrite decide_False by done. simpl. f_equal. by apply IH.
Qed.

Lemma keys_set_NoDup m k v :
  NoDup (JsMap.keys m) -> NoDup (JsMap.keys (JsMap.set m k v)).
Proof.
  intros Hnd. destruct (decide (k ∈ JsMap.keys m)) as [Hin|Hnin].
  - by rewrite keys_set_present.
  - rewrite keys_set_absent by done.
    apply NoDup_app. split_and!; [done | | apply NoDup_singleton].
    intros x Hx Hx'. apply list_elem_of_singleton in Hx'. by subst.
Qed.

Lemma elem_of_keys_set m k k' v :
  k' ∈ JsMap.keys (JsMap.set m k v) <-> k' = k \/ k' ∈ JsMap.keys m.
Proof.
  rewrite <- !get_is_Some. destruct (decide (k = k')) as [->|Hne].
  - rewrite get_set_eq. split; [by left | by eexists].
  - rewrite get_set_ne by done. split; [by right | by intros [->|?]].
Qed.

End JsMapFacts.

(** * Properties of the per-user reducer *)

Section Reducer.
Import Leaderboard.

Lemma replaces_beats_entry (video : VideoScore) (e : UserScore) :
  replaces video (Some e) = true <-> beats_entry video e.
Proof.
  unfold replaces, beats_entry.
  rewrite orb_true_iff, andb_true_iff, Z.eqb_eq, !Z.gtb_gt. done.
Qed.

Lemma beats_trans (a b c : VideoScore) : beats a b -> beats b c -> beats a c.
Proof. unfold beats, beats_entry; simpl. lia. Qed.

Lemma beats_not_beats (a b c : VideoScore) :
  beats a b -> ¬ beats c b -> beats a c.
Proof. unfold beats, beats_entry; simpl. lia. Qed.

Lemma not_beats_trans (a b c : VideoScore) :
  ¬ beats a b -> ¬ beats b c -> ¬ beats a c.
Proof. unfold beats, beats_entry; simpl. lia. Qed.

Lemma beats_asym (a b : VideoScore) : beats a b -> ¬ beats b a.
Proof. unfold beats, beats_entry; simpl. lia. Qed.

Lemma beats_irrefl (a : VideoScore) : ¬ beats a a.
Proof. unfold beats, beats_entry; simpl. lia. Qed.

Lemma beats_not_tied (a b : VideoScore) : beats a b -> ¬ fully_tied b a.
Proof. unfold beats, beats_entry, fully_tied; simpl. lia. Qed.

Lemma userBestVideos_snoc (videoScores : list VideoScore) (video : VideoScore) :
  userBestVideos (videoScores ++ [video])
  = reduce_step (userBestVideos videoScores) video.
Proof. unfold userBestVideos. by rewrite foldl_snoc. Qed.

Lemma reduce_step_keys (m : JsMap.t UserScore) (video : VideoScore) (u : string) :
  u ∈ JsMap.keys (reduce_step m video)
  <-> u = vs_user_id video \/ u ∈ JsMap.keys m.
Proof.
  unfold reduce_step.
  destruct (JsMap.get m (vs_user_id video)) as [e|] eqn:Hget.
  - assert (Hin : vs_user_id video ∈ JsMap.keys m)
      by (apply get_is_Some; by eexists).
    destruct (replaces video (Some e)).
    + rewrite elem_of_keys_set. done.
    + split; [by right | by intros [->|?]].
  - simpl. rewrite elem_of_keys_set. done.
Qed.

Lemma reduce_step_NoDup (m : JsMap.t UserScore) (video : VideoScore) :
  NoDup (JsMap.keys m) -> NoDup (JsMap.keys (reduce_step m video)).
Proof.
  intros Hnd. unfold reduce_step.
  destruct (replaces video _); [by apply keys_set_NoDup | done].
Qed.

Lemma userBestVideos_keys (videoScores : list VideoScore) (u : string) :
  u ∈ JsMap.keys (userBestVideos videoScores) <-> u ∈ vs_user_id <$> videoScores.
Proof.
  induction videoScores as [|video videoScores IH] using rev_ind.
  - simpl. done.
  - rewrite userBestVideos_snoc, reduce_step_keys, IH, fmap_app, elem_of_app.
    simpl. rewrite list_elem_of_singleton. tauto.
Qed.

Lemma userBestVideos_NoDup (videoScores : list VideoScore) :
  NoDup (JsMap.keys (userBestVideos videoScores)).
Proof.
  induction videoScores as [|video videoScores IH] using rev_ind.
  - apply NoDup_nil_2.
  - rewrite userBestVideos_snoc. by apply reduce_step_NoDup.
Qed.

Lemma userBestVideos_first_best (videoScores : list VideoScore) (u : string)
    (e : UserScore) :
  JsMap.get (userBestVideos videoScores) u = Some e ->
  first_best videoScores u e.
Proof.
  revert e. induction videoScores as [|video videoScores IH] using rev_ind;
    intros e; [discriminate|].
  rewrite userBestVideos_snoc. unfold reduce_step.
  destruct (decide (vs_user_id video = u)) as [Hu|Hu].
  - destruct (JsMap.get (userBestVideos videoScores) (vs_user_id video))
      as [e0|] eqn:Hget.
    + rewrite Hu in Hget.
      destruct (IH e0 Hget) as (pre & b & post & -> & Hb & -> & Hpre & Hpost).
      destruct (replaces video (Some (toUserScore b))) eqn:Hrep.
      * rewrite Hu, get_set_eq. intros [= <-].
        apply replaces_beats_entry in Hrep.
        exists (pre ++ b :: post), video, [].
        split; [reflexivity|]. split; [exact Hu|]. split; [reflexivity|]. split.
        -- intros x Hx Hxu. apply elem_of_app in Hx as [Hx|Hx].
           { eapply beats_trans; [exact Hrep | by apply Hpre]. }
           apply elem_of_cons in Hx as [->|Hx]; [exact Hrep|].
           eapply beats_not_beats; [exact Hrep | by apply Hpost].
        -- intros x Hx. inversion Hx.
      * rewrite Hget. intros [= <-].
        exists pre, b, (post ++ [video]).
        split; [by rewrite <- app_assoc|]. split; [exact Hb|].
        split; [reflexivity|]. split; [exact Hpre|].
        intros x Hx Hxu. apply elem_of_app in Hx as [Hx|Hx]; [by apply Hpost|].
        apply list_elem_of_singleton in Hx as ->.
        intros Hb'. apply replaces_beats_entry in Hb'. congruence.
    + simpl. rewrite Hu, get_set_eq. intros [= <-].
      exists videoScores, video, [].
      split; [reflexivity|]. split; [exact Hu|]. split; [reflexivity|]. split.
      * intros x Hx Hxu. exfalso.
        apply get_None in Hget. apply Hget.
        apply userBestVideos_keys. rewrite Hu, <- Hxu.
        by apply list_elem_of_fmap_2.
      * intros x Hx. inversion Hx.
  - assert (Hsame : JsMap.get
                      (if replaces video
                            (JsMap.get (userBestVideos videoScores) (vs_user_id video))
                       then JsMap.set (userBestVideos videoScores)
                              (vs_user_id video) (toUserScore video)
                       else userBestVideos videoScores) u
                    = JsMap.get (userBestVideos videoScores) u).
    { destruct (replaces video _); [by apply get_set_ne | done]. }
    rewrite Hsame. intros Hget.
    destruct (IH e Hget) as (pre & b & post & -> & Hb & -> & Hpre & Hpost).
    exists pre, b, (post ++ [video]).
    split; [by rewrite <- app_assoc|]. split; [exact Hb|].
    split; [reflexivity|]. split; [exact Hpre|].
    intros x Hx Hxu. apply elem_of_app in Hx as [Hx|Hx]; [by apply Hpost|].
    apply list_elem_of_singleton in Hx as ->. done.
Qed.

End Reducer.

Section ReducerClaims.
Import Leaderboard.

Example reducer_tie_break :
  best_video_id <$> JsMap.get (userBestVideos (take 2 sample_scores)) "u1" = Some "v2".
Proof. reflexivity. Qed.

Example reducer_score_wins :
  best_video_id <$> JsMap.values (userBestVideos sample_scores) = ["v4"; "v3"].
Proof. reflexivity. Qed.

Lemma get_map_without_views (m : JsMap.t UserScore) (k : string) :
  JsMap.get (map_without_views m) k = entry_without_views <$> JsMap.get m k.
Proof.
  unfold map_without_views. induction m as [|[k' e] m IH]; simpl; [done|].
  by destruct (decide (k = k')).
Qed.

Lemma set_map_without_views (m : JsMap.t UserScore) (k : string) (e : UserScore) :
  map_without_views (JsMap.set m k e)
  = JsMap.set (map_without_views m) k (entry_without_views e).
Proof.
  unfold map_without_views. induction m as [|[k' e'] m IH]; simpl; [done|].
  destruct (decide (k = k')); simpl; [done|]. f_equal. exact IH.
Qed.

Lemma replaces_without_views (video : VideoScore) (existingUser : option UserScore) :
  replaces (without_views video) (entry_without_views <$> existingUser)
  = replaces video existingUser.
Proof. by destruct existingUser. Qed.

Lemma reduce_step_without_views (m : JsMap.t UserScore) (video : VideoScore) :
  reduce_step (map_without_views m) (without_views video)
  = map_without_views (reduce_step m video).
Proof.
  unfold reduce_step.
  change (vs_user_id (without_views video)) with (vs_user_id video).
  rewrite get_map_without_views, replaces_without_views.
  destruct (replaces video _); [|done].
  by rewrite set_map_without_views.
Qed.

Lemma userBestVideos_without_views (videoScores : list VideoScore) :
  userBestVideos (without_views <$> videoScores)
  = map_without_views (userBestVideos videoScores).
Proof.
  induction videoScores as [|video videoScores IH] using rev_ind; [done|].
  rewrite fmap_app. simpl.
  by rewrite !userBestVideos_snoc, IH, reduce_step_without_views.
Qed.

(** What one more candidate does to the map the reducer has built. *)
Lemma userBestVideos_candidate (videoScores : list VideoScore) (video : VideoScore) :
  match JsMap.get (userBestVideos videoScores) (vs_user_id video) with
  | None =>
      userBestVideos (videoScores ++ [video])
      = JsMap.set (userBestVideos videoScores) (vs_user_id video) (toUserScore video)
  | Some existingUser =>
      (beats_entry video existingUser ->
       userBestVideos (videoScores ++ [video])
       = JsMap.set (userBestVideos videoScores) (vs_user_id video)
           (toUserScore video))
      /\ (¬ beats_entry video existingUser ->
          userBestVideos (videoScores ++ [video]) = userBestVideos videoScores)
  end.
Proof.
  rewrite userBestVideos_snoc. unfold reduce_step.
  destruct (JsMap.get (userBestVideos videoScores) (vs_user_id video))
    as [existingUser|]; [|done].
  split.
  - intros Hb. apply replaces_beats_entry in Hb. by rewrite Hb.
  - intros Hb. rewrite <- replaces_beats_entry in Hb.
    apply not_true_is_false in Hb. by rewrite Hb.
Qed.

(** C2.  The reducer holds exactly one entry per distinct user of the
    corpus, each made from a video of that user.  Scanning one more
    candidate, the map it has built changes as follows: a user without an
    entry gets the candidate; a user with an entry gets the candidate in
    its place exactly when the candidate's score is strictly greater, or
    its score is equal and its likes are strictly greater, and otherwise
    the map stays as it is.  So the entry of a user is made from the
    video of that user that beats every earlier video of the user and is
    beaten by no later one.  The decision reads scores and likes only,
    never views: blanking the views of the corpus changes nothing in the
    reducer's result but the views it records. *)
Theorem userBestVideos_one_per_user (videoScores : list VideoScore) :
  NoDup (JsMap.keys (userBestVideos videoScores))
  /\ (forall u, u ∈ JsMap.keys (userBestVideos videoScores)
                <-> u ∈ vs_user_id <$> videoScores)
  /\ (forall u e, JsMap.get (userBestVideos videoScores) u = Some e ->
                  us_user_id e = u
                  /\ (exists video, video ∈ videoScores /\ e = toUserScore video)
                  /\ first_best videoScores u e)
  /\ userBestVideos [] = []
  /\ (forall video,
        match JsMap.get (userBestVideos videoScores) (vs_user_id video) with
        | None =>
            userBestVideos (videoScores ++ [video])
            = JsMap.set (userBestVideos videoScores) (vs_user_id video)
                (toUserScore video)
        | Some existingUser =>
            (beats_entry video existingUser ->
             userBestVideos (videoScores ++ [video])
             = JsMap.set (userBestVideos videoScores) (vs_user_id video)
                 (toUserScore video))
            /\ (¬ beats_entry video existingUser ->
                userBestVideos (videoScores ++ [video]) = userBestVideos videoScores)
        end)
  /\ (forall m video e,
        JsMap.get m (vs_user_id video) = Some e ->
        (beats_entry video e ->
         reduce_step m video = JsMap.set m (vs_user_id video) (toUserScore video))
        /\ (¬ beats_entry video e -> reduce_step m video = m))
  /\ (forall video video' e e',
        vs_score video = vs_score video' -> vs_likes video = vs_likes video' ->
        us_score e = us_score e' -> us_likes e = us_likes e' ->
        replaces video (Some e) = replaces video' (Some e'))
  /\ userBestVideos (without_views <$> videoScores)
     = map_without_views (userBestVideos videoScores).
Proof.
  split; [apply userBestVideos_NoDup|].
  split; [apply userBestVideos_keys|].
  split; [|split; [reflexivity|split; [|split; [|split]]]].
  - intros u e Hget.
    pose proof (userBestVideos_first_best _ _ _ Hget) as Hfirst.
    destruct Hfirst as (pre & b & post & Hsplit & Hb & He & Hpre & Hpost).
    split; [by rewrite He|]. split.
    + exists b. split; [|exact He].
      rewrite Hsplit. apply elem_of_app. right. apply elem_of_cons. by left.
    + by exists pre, b, post.
  - intros video. apply userBestVideos_candidate.
  - intros m video e Hget. unfold reduce_step. rewrite Hget. split.
    + intros Hb. apply replaces_beats_entry in Hb. by rewrite Hb.
    + intros Hb. rewrite <- replaces_beats_entry in Hb.
      apply not_true_is_false in Hb. by rewrite Hb.
  - intros video video' e e' Hs Hl Hs' Hl'. unfold replaces.
    by rewrite Hs, Hl, Hs', Hl'.
  - apply userBestVideos_without_views.
Qed.

Lemma userBestVideos_one_per_user_witness :
  userBestVideos
    (take 1 sample_scores
     ++ [ {| vs_video_id := "v2"; vs_user_id := "u1"; vs_title := "b";
             vs_username := "ann"; vs_avatar_url := None;
             vs_score := 80; vs_likes := 10; vs_views := 1 |} ])
  = JsMap.set (userBestVideos (take 1 sample_scores)) "u1"
      {| us_user_id := "u1"; us_username := "ann"; us_avatar_url := None;
         best_video_id := "v2"; best_video_title := "b";
         us_score := 80; us_likes := 10; us_views := 1 |}.
Proof.
  destruct (userBestVideos_one_per_user (take 1 sample_scores))
    as (_ & _ & _ & _ & Hnext & _).
  specialize (Hnext {| vs_video_id := "v2"; vs_user_id := "u1"; vs_title := "b";
                       vs_username := "ann"; vs_avatar_url := None;
                       vs_score := 80; vs_likes := 10; vs_views := 1 |}).
  simpl in Hnext. destruct Hnext as [Hreplace _].
  apply Hreplace. right. simpl. lia.
Defined.

(** C9.  On a tie of score and likes the reducer does not replace, so a
    user's entry comes from the first video of the input list among
    those of the user that nothing beats; with the rows fetched newest
    first, no video of the user fully tied with the chosen one is more
    recent than it. *)
Theorem userBestVideos_keeps_first_of_ties
    (created_at : string -> Z) (videos : list Video) (u : string) (e : UserScore) :
  newest_first created_at videos ->
  JsMap.get (userBestVideos (videoScores videos)) u = Some e ->
  (forall m video e0,
      JsMap.get m (vs_user_id video) = Some e0 ->
      vs_score video = us_score e0 -> vs_likes video = us_likes e0 ->
      reduce_step m video = m)
  /\ exists pre b post,
      videos = pre ++ b :: post
      /\ user_id b = u
      /\ e = toUserScore (scored videos b)
      /\ (forall x, x ∈ videos -> user_id x = u ->
                    ¬ beats (scored videos x) (scored videos b))
      /\ (forall x, x ∈ pre -> user_id x = u ->
                    ¬ fully_tied (scored videos x) (scored videos b))
      /\ (forall x, x ∈ videos -> user_id x = u ->
                    fully_tied (scored videos x) (scored videos b) ->
                    created_at (id x) <= created_at (id b)).
Proof.
  intros Hsorted Hget. split.
  { intros m video e0 Hm Hs Hl. unfold reduce_step. rewrite Hm.
    unfold replaces. rewrite Hs, Hl, !Z.gtb_ltb, !Z.ltb_irrefl.
    by rewrite andb_false_r. }
  destruct (userBestVideos_first_best _ _ _ Hget)
    as (pre' & b' & post' & Hsplit & Hb & -> & Hpre & Hpost).
  unfold videoScores in Hsplit. fold (scored videos) in Hsplit.
  apply fmap_app_inv in Hsplit as (pre & rest & -> & Hrest & ->).
  symmetry in Hrest. apply fmap_cons_inv in Hrest as (b & post & -> & -> & ->).
  set (sc := scored (pre ++ b :: post)) in *.
  assert (Hpre_beats : forall x, x ∈ pre -> user_id x = u -> beats (sc b) (sc x)).
  { intros x Hx Hxu. apply Hpre; [by apply list_elem_of_fmap_2 | exact Hxu]. }
  assert (Hpost_beats : forall x, x ∈ post -> user_id x = u -> ¬ beats (sc x) (sc b)).
  { intros x Hx Hxu. apply Hpost; [by apply list_elem_of_fmap_2 | exact Hxu]. }
  exists pre, b, post.
  split; [reflexivity|]. split; [exact Hb|]. split; [reflexivity|].
  split; [|split].
  - intros x Hx Hxu. apply elem_of_app in Hx as [Hx|Hx].
    + by apply beats_asym, Hpre_beats.
    + apply elem_of_cons in Hx as [->|Hx]; [|by apply Hpost_beats].
      apply beats_irrefl.
  - intros x Hx Hxu. by apply beats_not_tied, Hpre_beats.
  - intros x Hx Hxu Htied. apply elem_of_app in Hx as [Hx|Hx].
    + exfalso. by apply (beats_not_tied _ _ (Hpre_beats x Hx Hxu)).
    + apply elem_of_cons in Hx as [->|Hx]; [lia|].
      unfold newest_first in Hsorted.
      apply StronglySorted_app_1_r in Hsorted.
      apply StronglySorted_inv in Hsorted as [_ Hall].
      rewrite List.Forall_forall in Hall.
      apply list_elem_of_In, Hall in Hx. lia.
Qed.

Lemma userBestVideos_keeps_first_of_ties_witness :
  exists pre b post,
    sample_videos = pre ++ b :: post
    /\ id b = "n"
    /\ (forall x, x ∈ sample_videos -> user_id x = "u1" ->
                  fully_tied (scored sample_videos x) (scored sample_videos b) ->
                  sample_created_at (id x) <= sample_created_at (id b)).
Proof.
  destruct (userBestVideos_keeps_first_of_ties sample_created_at sample_videos "u1"
              {| us_user_id := "u1"; us_username := "ann"; us_avatar_url := None;
                 best_video_id := "n"; best_video_title := "new";
                 us_score := 50; us_likes := 5; us_views := 50 |})
    as [_ (pre & b & post & Hsplit & _ & He & _ & _ & Hrecent)].
  - unfold newest_first, sample_videos.
    repeat first [ apply SSorted_cons | apply SSorted_nil
                 | apply List.Forall_cons | apply List.Forall_nil ];
      vm_compute; intros Hlt; discriminate Hlt.
  - vm_compute. reflexivity.
  - exists pre, b, post. split; [exact Hsplit|]. split; [|exact Hrecent].
    apply (f_equal best_video_id) in He. simpl in He. by rewrite <- He.
Defined.

End ReducerClaims.

(** * Properties of the sort *)

Section StableSort.
Context {A : Type} (cmp : A -> A -> Z).

Lemma sort_insert_Permutation (x : A) (l : list A) :
  JsArray.sort_insert cmp x l ≡ₚ x :: l.
Proof.
  induction l as [|y l IH]; simpl; [done|].
  destruct (0 <? cmp x y); [|done].
  rewrite IH. apply Permutation_swap.
Qed.

Lemma sort_Permutation (l : list A) : JsArray.sort cmp l ≡ₚ l.
Proof.
  induction l as [|x l IH]; simpl; [done|].
  unfold JsArray.sort in *. simpl. by rewrite sort_insert_Permutation, IH.
Qed.

(** Stability: elements that the comparator never puts one after the
    other keep their order. *)
Lemma sort_insert_stable (P : A -> Prop) `{!forall a, Decision (P a)}
    (x : A) (l : list A) :
  (forall a b, P a -> P b -> cmp a b <= 0) ->
  filter P (JsArray.sort_insert cmp x l) = filter P (x :: l).
Proof.
  intros HP. induction l as [|y l IH]; simpl; [done|].
  destruct (0 <? cmp x y) eqn:Hxy; [|done].
  apply Z.ltb_lt in Hxy.
  rewrite filter_cons, IH, !filter_cons.
  destruct (decide (P y)) as [Hy|Hy], (decide (P x)) as [Hx|Hx]; try done.
  specialize (HP x y Hx Hy). lia.
Qed.

Lemma sort_stable (P : A -> Prop) `{!forall a, Decision (P a)} (l : list A) :
  (forall a b, P a -> P b -> cmp a b <= 0) ->
  filter P (JsArray.sort cmp l) = filter P l.
Proof.
  intros HP. induction l as [|x l IH]; [done|].
  unfold JsArray.sort in *. simpl.
  rewrite sort_insert_stable by done. by rewrite !filter_cons, IH.
Qed.

(** The comparator is consistent: "not after" is transitive, and of two
    elements one is not after the other. *)
Hypothesis cmp_trans : forall a b c, cmp a b <= 0 -> cmp b c <= 0 -> cmp a c <= 0.
Hypothesis cmp_total : forall a b, 0 < cmp a b -> cmp b a <= 0.

Lemma sort_insert_sorted (x : A) (l : list A) :
  StronglySorted (fun a b => cmp a b <= 0) l ->
  StronglySorted (fun a b => cmp a b <= 0) (JsArray.sort_insert cmp x l).
Proof.
  induction l as [|y l IH]; simpl; intros Hl.
  - apply SSorted_cons; [apply SSorted_nil | apply List.Forall_nil].
  - apply StronglySorted_inv in Hl as [Hl Hy].
    destruct (0 <? cmp x y) eqn:Hxy.
    + apply Z.ltb_lt in Hxy. apply SSorted_cons; [by apply IH|].
      rewrite sort_insert_Permutation. apply List.Forall_cons; [|exact Hy].
      by apply cmp_total.
    + apply Z.ltb_ge in Hxy. apply SSorted_cons.
      * by apply SSorted_cons.
      * apply List.Forall_cons; [exact Hxy|].
        eapply List.Forall_impl; [|exact Hy].
        intros z Hz. by eapply cmp_trans.
Qed.

Lemma sort_sorted (l : list A) :
  StronglySorted (fun a b => cmp a b <= 0) (JsArray.sort cmp l).
Proof.
  induction l as [|x l IH]; [apply SSorted_nil|].
  unfold JsArray.sort in *. simpl. by apply sort_insert_sorted.
Qed.

End StableSort.

Lemma StronglySorted_weaken {A} (R R' : A -> A -> Prop) (l : list A) :
  (forall a b, R a b -> R' a b) -> StronglySorted R l -> StronglySorted R' l.
Proof.
  intros HR. induction 1 as [|a l Hl IH Ha]; [apply SSorted_nil|].
  apply SSorted_cons; [exact IH|].
  eapply List.Forall_impl; [|exact Ha]. intros b. apply HR.
Qed.

(** * Properties of the ranking assembler *)

Section Ranking.
Import Leaderboard.

Lemma compareRankings_ranks_before (a b : UserScore) :
  compareRankings a b <= 0 <-> ranks_before a b.
Proof.
  unfold compareRankings, ranks_before.
  destruct (us_score b =? us_score a) eqn:Hs; simpl.
  - apply Z.eqb_eq in Hs.
    destruct (us_likes b =? us_likes a) eqn:Hl; simpl.
    + apply Z.eqb_eq in Hl. lia.
    + apply Z.eqb_neq in Hl. lia.
  - apply Z.eqb_neq in Hs. lia.
Qed.

Lemma compareRankings_trans (a b c : UserScore) :
  compareRankings a b <= 0 -> compareRankings b c <= 0 -> compareRankings a c <= 0.
Proof.
  rewrite !compareRankings_ranks_before. unfold ranks_before. lia.
Qed.

Lemma compareRankings_total (a b : UserScore) :
  0 < compareRankings a b -> compareRankings b a <= 0.
Proof.
  intros Hab. apply compareRankings_ranks_before.
  assert (Hn : ¬ ranks_before a b) by (rewrite <- compareRankings_ranks_before; lia).
  revert Hn. unfold ranks_before. lia.
Qed.

Lemma leaderboardEntries_ranks (stamp : nat -> string) (l : list UserScore) :
  le_rank <$> leaderboardEntries stamp l = Z.of_nat <$> seq 1 (length l).
Proof.
  unfold leaderboardEntries. rewrite fmap_imap.
  rewrite (imap_ext _ (fun j _ => Z.of_nat (S j))) by (intros; simpl; lia).
  rewrite imap_seq_0, <- fmap_S_seq, <- list_fmap_compose. done.
Qed.

Example ranking_views_tie_break :
  (fun e => (le_video_id e, le_rank e))
    <$> leaderboardEntries (fun _ => "t") (userRankings sample_entries)
  = [("a", 1); ("b", 2)].
Proof. reflexivity. Qed.

(** C3.  The ranking assembler returns the reduced entries reordered by
    score, then likes, then views, larger first, and the entry at
    position [i] (from 0) of that order gets rank [i + 1]: the ranks are
    1, 2, ..., n, whether or not entries tie. *)
Theorem userRankings_sorted_ranked (stamp : nat -> string) (m : JsMap.t UserScore) :
  userRankings m ≡ₚ JsMap.values m
  /\ StronglySorted ranks_before (userRankings m)
  /\ le_rank <$> leaderboardEntries stamp (userRankings m)
     = Z.of_nat <$> seq 1 (JsMap.size m)
  /\ (forall (i : nat) (user : UserScore),
        userRankings m !! i = Some user ->
        leaderboardEntries stamp (userRankings m) !! i
        = Some {| le_video_id := best_video_id user;
                  le_score := us_score user;
                  le_rank := Z.of_nat i + 1;
                  le_created_at := stamp i |}).
Proof.
  assert (Hperm : userRankings m ≡ₚ JsMap.values m) by apply sort_Permutation.
  split; [exact Hperm|]. split; [|split].
  - eapply StronglySorted_weaken;
      [|apply (sort_sorted compareRankings compareRankings_trans compareRankings_total)].
    intros a b. apply compareRankings_ranks_before.
  - rewrite leaderboardEntries_ranks, Hperm.
    unfold JsMap.values, JsMap.size. by rewrite length_fmap.
  - intros i user Hi. unfold leaderboardEntries.
    by rewrite list_lookup_imap, Hi.
Qed.

Lemma userRankings_sorted_ranked_witness :
  leaderboardEntries (fun _ => "t") (userRankings sample_entries) !! 0%nat
  = Some {| le_video_id := "a"; le_score := 50; le_rank := 1; le_created_at := "t" |}.
Proof.
  destruct (userRankings_sorted_ranked (fun _ => "t") sample_entries)
    as (_ & _ & _ & Hrank).
  apply (Hrank 0%nat {| us_user_id := "u1"; us_username := "ann";
                        us_avatar_url := None;
                        best_video_id := "a"; best_video_title := "a";
                        us_score := 50; us_likes := 2; us_views := 100 |}).
  reflexivity.
Defined.

End Ranking.

(** * Properties of the handler *)

Section Handler.
Import Leaderboard.

Lemma update_leaderboard_fetch_error (env : Env) (w : World) (fetchError : PgError) :
  select_videos env = inl fetchError ->
  update_leaderboard env w = (inl fetchError, record_call SelectVideos w).
Proof.
  intros Hsel. unfold update_leaderboard, bind, db_select_videos. by rewrite Hsel.
Qed.

Lemma update_leaderboard_no_videos (env : Env) (w : World) :
  select_videos env = inr None \/ select_videos env = inr (Some []) ->
  update_leaderboard env w
  = (inr {| status := 200; headers := jsonHeaders;
            body := BodyNoVideos "No videos found" 0 |},
     record_call SelectVideos w).
Proof.
  intros [Hsel|Hsel]; unfold update_leaderboard, bind, db_select_videos;
    by rewrite Hsel.
Qed.

Lemma update_leaderboard_delete_error (env : Env) (w : World)
    (video : Video) (videos : list Video) (deleteError : PgError) :
  select_videos env = inr (Some (video :: videos)) ->
  delete_error env = Some deleteError ->
  update_leaderboard env w
  = (inl deleteError,
     record_call DeleteLeaderboard
       (advance (length (userRankings (userBestVideos (videoScores (video :: videos)))))
          (record_call SelectVideos w))).
Proof.
  intros Hsel Hdel.
  unfold update_leaderboard, bind, db_select_videos, stamped_entries,
    db_delete_leaderboard.
  by rewrite Hsel, Hdel.
Qed.

Lemma update_leaderboard_calls_delete_ok (env : Env) (w : World)
    (video : Video) (videos : list Video) :
  select_videos env = inr (Some (video :: videos)) ->
  delete_error env = None ->
  calls (update_leaderboard env w).2
  = calls w ++ [SelectVideos; DeleteLeaderboard;
                InsertLeaderboard (computed_entries env w (video :: videos))].
Proof.
  intros Hsel Hdel.
  unfold update_leaderboard, bind, db_select_videos, stamped_entries,
    db_delete_leaderboard, db_insert_leaderboard, now, ret, throw, computed_entries.
  rewrite Hsel, Hdel.
  destruct (insert_error env); simpl; by rewrite <- !app_assoc.
Qed.

Lemma handler_world (env : Env) (req : Request) (w : World) :
  method req ≠ "OPTIONS" ->
  calls (handler env req w).2 = calls (update_leaderboard env w).2
  /\ leaderboard (handler env req w).2 = leaderboard (update_leaderboard env w).2.
Proof.
  intros Hm. unfold handler. rewrite decide_False by done.
  by destruct (update_leaderboard env w) as [[error|response] w'].
Qed.

Lemma issued_app (env : Env) (req : Request) (w : World) (cs : list DbCall) :
  calls (handler env req w).2 = calls w ++ cs -> issued env req w = cs.
Proof.
  intros Hc. unfold issued. rewrite Hc. apply drop_app_length.
Qed.

Lemma handler_options (env : Env) (req : Request) (w : World) :
  method req = "OPTIONS" ->
  handler env req w
  = ({| status := 200; headers := corsHeaders; body := BodyText "ok" |}, w).
Proof. intros Hm. unfold handler. by rewrite decide_True. Qed.

(** The runs of the handler, by the store calls they issue. *)
Lemma handler_cases (env : Env) (req : Request) (w : World) :
  (issued env req w = [] /\ leaderboard (handler env req w).2 = leaderboard w)
  \/ (issued env req w = [SelectVideos]
      /\ leaderboard (handler env req w).2 = leaderboard w
      /\ ((exists fetchError, select_videos env = inl fetchError)
          \/ select_videos env = inr None \/ select_videos env = inr (Some [])))
  \/ (exists videos,
        select_videos env = inr (Some videos) /\ videos ≠ []
        /\ is_Some (delete_error env)
        /\ issued env req w = [SelectVideos; DeleteLeaderboard]
        /\ leaderboard (handler env req w).2 = leaderboard w)
  \/ (exists videos,
        select_videos env = inr (Some videos) /\ videos ≠ []
        /\ delete_error env = None
        /\ issued env req w
           = [SelectVideos; DeleteLeaderboard;
              InsertLeaderboard (computed_entries env w videos)]).
Proof.
  destruct (decide (method req = "OPTIONS")) as [Hm|Hm].
  { left. unfold issued. rewrite handler_options by done. simpl.
    split; [apply drop_all | done]. }
  destruct (handler_world env req w Hm) as [Hcalls Hboard].
  destruct (select_videos env) as [fetchError|[[|video videos]|]] eqn:Hsel.
  - right; left. rewrite Hboard.
    rewrite (update_leaderboard_fetch_error env w fetchError Hsel) in *.
    split; [by apply issued_app|]. split; [done|]. left. by eexists.
  - right; left. rewrite Hboard.
    rewrite (update_leaderboard_no_videos env w (or_intror Hsel)) in *.
    split; [by apply issued_app|]. split; [done|]. by right; right.
  - destruct (delete_error env) as [deleteError|] eqn:Hdel.
    + right; right; left. exists (video :: videos).
      rewrite Hboard.
      rewrite (update_leaderboard_delete_error env w video videos deleteError Hsel Hdel)
        in *.
      split; [done|]. split; [done|]. split; [by eexists|].
      split; [|done]. apply issued_app. rewrite Hcalls. simpl.
      by rewrite <- app_assoc.
    + right; right; right. exists (video :: videos).
      split; [done|]. split; [done|]. split; [done|].
      apply issued_app. rewrite Hcalls.
      by apply update_leaderboard_calls_delete_ok.
  - right; left. rewrite Hboard.
    rewrite (update_leaderboard_no_videos env w (or_introl Hsel)) in *.
    split; [by apply issued_app|]. split; [done|]. by right; left.
Qed.

Lemma handler_response_fetch_error (env : Env) (req : Request) (w : World)
    (fetchError : PgError) :
  method req ≠ "OPTIONS" -> select_videos env = inl fetchError ->
  (handler env req w).1
  = {| status := 500; headers := jsonHeaders;
       body := BodyError (JS.str_or (message fetchError) "Internal server error")
                         (clock env (ticks w)) |}.
Proof.
  intros Hm Hsel. unfold handler. rewrite decide_False by done.
  by rewrite (update_leaderboard_fetch_error env w fetchError Hsel).
Qed.

Example handler_end_to_end :
  (handler sample_env post published_world).1
  = {| status := 200; headers := jsonHeaders;
       body := BodyUpdated "Leaderboard updated successfully" 2 2
                 "2025-01-01T00:00:00.000Z"
                 [ {| t_rank := 1; t_user_id := "u2"; t_username := "Anonymous";
                      t_avatar_url := None; t_best_video_id := "t";
                      t_best_video_title := "top";
                      t_score := 100; t_likes := 10; t_views := 100 |};
                   {| t_rank := 2; t_user_id := "u1"; t_username := "ann";
                      t_avatar_url := None; t_best_video_id := "n";
                      t_best_video_title := "new";
                      t_score := 50; t_likes := 5; t_views := 50 |} ] |}
  /\ leaderboard (handler sample_env post published_world).2
     = [ {| row_id := "r0";
            row_entry := {| le_video_id := "t"; le_score := 100; le_rank := 1;
                            le_created_at := "2025-01-01T00:00:00.000Z" |} |};
         {| row_id := "r1";
            row_entry := {| le_video_id := "n"; le_score := 50; le_rank := 2;
                            le_created_at := "2025-01-01T00:00:00.000Z" |} |} ].
Proof. split; vm_compute; reflexivity. Qed.

(** C4 as stated fails: on an empty corpus the rows published by an
    earlier run are still there after the job. *)
Lemma handler_empty_corpus_counterexample :
  select_videos empty_corpus_env = inr (Some [])
  /\ leaderboard (handler empty_corpus_env post published_world).2 <> [].
Proof.
  split; [reflexivity|]. vm_compute. discriminate.
Qed.

(** C4, amended.  On a corpus of zero videos the job does not fail: it
    answers with status 200 and [updated = 0], issues neither the delete
    nor the insert, and leaves the persisted leaderboard as it was. *)
Theorem handler_empty_corpus (env : Env) (req : Request) (w : World) :
  method req ≠ "OPTIONS" ->
  select_videos env = inr (Some []) ->
  (handler env req w).1
  = {| status := 200; headers := jsonHeaders;
       body := BodyNoVideos "No videos found" 0 |}
  /\ updated_of (handler env req w).1 = Some 0
  /\ issued env req w = [SelectVideos]
  /\ leaderboard (handler env req w).2 = leaderboard w.
Proof.
  intros Hm Hsel.
  assert (Hrun := update_leaderboard_no_videos env w (or_intror Hsel)).
  assert (Hh : handler env req w
               = ({| status := 200; headers := jsonHeaders;
                     body := BodyNoVideos "No videos found" 0 |},
                  record_call SelectVideos w)).
  { unfold handler. rewrite decide_False by done. by rewrite Hrun. }
  split; [by rewrite Hh|]. split; [by rewrite Hh|].
  split; [apply issued_app; by rewrite Hh | by rewrite Hh].
Qed.

Lemma handler_empty_corpus_witness :
  updated_of (handler empty_corpus_env post published_world).1 = Some 0
  /\ leaderboard (handler empty_corpus_env post published_world).2
     = leaderboard published_world.
Proof.
  destruct (handler_empty_corpus empty_corpus_env post published_world)
    as (_ & Hupdated & _ & Hboard).
  - vm_compute. discriminate.
  - reflexivity.
  - split; [exact Hupdated | exact Hboard].
Defined.

(** C5.  When the read of the video corpus fails the run ends with an
    error answer, the delete is never issued and the persisted
    leaderboard is as before.  In any run, a delete is issued only after
    the rows were read and the new entries computed from them, and it is
    followed at once by the insert of exactly those entries, unless the
    delete itself reports an error; without a delete the leaderboard is
    untouched. *)
Theorem handler_read_failure_aborts (env : Env) (req : Request) (w : World) :
  (forall fetchError,
      select_videos env = inl fetchError ->
      leaderboard (handler env req w).2 = leaderboard w
      /\ (DeleteLeaderboard ∉ issued env req w)
      /\ (method req ≠ "OPTIONS" ->
          status (handler env req w).1 = 500
          /\ issued env req w = [SelectVideos]))
  /\ (DeleteLeaderboard ∈ issued env req w ->
      exists videos,
        select_videos env = inr (Some videos) /\ videos ≠ []
        /\ (issued env req w
            = [SelectVideos; DeleteLeaderboard;
               InsertLeaderboard (computed_entries env w videos)]
            \/ (is_Some (delete_error env)
                /\ issued env req w = [SelectVideos; DeleteLeaderboard]
                /\ leaderboard (handler env req w).2 = leaderboard w)))
  /\ (DeleteLeaderboard ∉ issued env req w ->
      leaderboard (handler env req w).2 = leaderboard w).
Proof.
  pose proof (handler_cases env req w) as Hcases.
  split; [|split].
  - intros fetchError Hsel.
    destruct Hcases as [[Hi Hb]|[(Hi & Hb & _)|[Hc|Hc]]].
    + split; [exact Hb|]. split; [rewrite Hi; apply not_elem_of_nil|].
      intros Hm. exfalso.
      assert (Hc := proj1 (handler_world env req w Hm)).
      rewrite (update_leaderboard_fetch_error env w fetchError Hsel) in Hc.
      apply issued_app in Hc. congruence.
    + split; [exact Hb|]. split.
      * rewrite Hi. intros Hin. apply list_elem_of_singleton in Hin. discriminate.
      * intros Hm. split; [|exact Hi].
        by rewrite (handler_response_fetch_error env req w fetchError Hm Hsel).
    + destruct Hc as (videos & Hsel' & _). congruence.
    + destruct Hc as (videos & Hsel' & _). congruence.
  - intros Hin.
    destruct Hcases as [[Hi Hb]|[(Hi & Hb & _)|[Hc|Hc]]].
    + rewrite Hi in Hin. by apply not_elem_of_nil in Hin.
    + rewrite Hi in Hin. apply list_elem_of_singleton in Hin. discriminate.
    + destruct Hc as (videos & Hsel & Hne & Hdel & Hi & Hb).
      exists videos. split; [done|]. split; [done|]. by right.
    + destruct Hc as (videos & Hsel & Hne & Hdel & Hi).
      exists videos. split; [done|]. split; [done|]. by left.
  - intros Hnin.
    destruct Hcases as [[Hi Hb]|[(Hi & Hb & _)|[Hc|Hc]]]; [done | done | |].
    + by destruct Hc as (videos & _ & _ & _ & _ & Hb).
    + destruct Hc as (videos & _ & _ & _ & Hi). exfalso. apply Hnin.
      rewrite Hi. apply elem_of_cons. right. apply elem_of_cons. by left.
Qed.

Lemma handler_read_failure_aborts_witness :
  leaderboard (handler failing_read_env post published_world).2
  = leaderboard published_world
  /\ status (handler failing_read_env post published_world).1 = 500.
Proof.
  destruct (handler_read_failure_aborts failing_read_env post published_world)
    as (Hfail & _ & _).
  destruct (Hfail {| message := Some "connection lost" |}) as (Hboard & _ & Hanswer).
  - reflexivity.
  - split; [exact Hboard|]. apply Hanswer. vm_compute. discriminate.
Defined.

End Handler.

(** * Properties of the like mutation *)

Section LikeMutation.
Import Home.

Lemma queryData_setLikedVideos (f : gset string -> gset string) (st : State) :
  queryData (setLikedVideos f st) = queryData st.
Proof. reflexivity. Qed.

Lemma queryData_onSettled (st : State) : queryData (onSettled st) = queryData st.
Proof. reflexivity. Qed.

Lemma queryData_setQueryData_const (data : list DanceVideo) (st : State) :
  queryData (setQueryData (fun _ => Some data) st) = Some data.
Proof. reflexivity. Qed.

(** The snapshot [onMutate] hands over is the cache it found. *)
Lemma onMutate_context (st : State) (variables : Variables) (context : Context) :
  (onMutate st variables).2 = Some context ->
  previousVideos context = queryData st.
Proof.
  unfold onMutate. destruct (session_user st); [|discriminate].
  simpl. by intros [= <-].
Qed.

Lemma onMutate_no_user (st : State) (variables : Variables) :
  (onMutate st variables).2 = None -> (onMutate st variables).1 = st.
Proof.
  unfold onMutate. by destruct (session_user st).
Qed.

Lemma onMutate_no_data (st : State) (variables : Variables) :
  queryData st = None -> queryData (onMutate st variables).1 = None.
Proof.
  intros Hq. unfold onMutate. destruct (session_user st); [|done].
  simpl. unfold setQueryData. by rewrite Hq.
Qed.

(** What [onError] leaves in the cache, whatever happened to the cache
    since [onMutate]. *)
Lemma onError_restores (st : State) (variables : Variables) (context : Context)
    (snapshot : list DanceVideo) :
  previousVideos context = Some snapshot ->
  queryData (onError st variables (Some context)) = Some snapshot.
Proof.
  intros Hprev. unfold onError. simpl. by rewrite Hprev.
Qed.

Lemma failed_mutation_queryData (st : State) (variables : Variables) :
  queryData (failed_mutation st variables) = queryData st.
Proof.
  unfold failed_mutation.
  destruct (onMutate st variables) as [st1 context] eqn:Hm.
  rewrite queryData_onSettled.
  destruct context as [context|].
  - pose proof (onMutate_context st variables context) as Hctx.
    rewrite Hm in Hctx. specialize (Hctx eq_refl).
    destruct (queryData st) as [snapshot|] eqn:Hq.
    + by apply onError_restores.
    + unfold onError. simpl. rewrite Hctx. simpl.
      pose proof (onMutate_no_data st variables Hq) as Hnone.
      by rewrite Hm in Hnone.
  - pose proof (onMutate_no_user st variables) as Hsame.
    rewrite Hm in Hsame. simpl in Hsame. by rewrite Hsame.
Qed.

(** C6.  After a like or unlike whose remote call fails has settled, the
    cache holds the snapshot taken before the optimistic update: every
    cached video, and so its likes count and its [liked_by], is as it
    was.  The rollback puts the snapshot back whatever the cache became
    in between. *)
Theorem failed_mutation_restores_snapshot (st : State) (variables : Variables) :
  queryData (failed_mutation st variables) = queryData st
  /\ (forall id', like_state <$> cached (failed_mutation st variables) id'
                  = like_state <$> cached st id')
  /\ (forall (between : State) (context : Context) (snapshot : list DanceVideo),
        (onMutate st variables).2 = Some context ->
        queryData st = Some snapshot ->
        queryData (onSettled (onError between variables (Some context)))
        = Some snapshot).
Proof.
  split; [apply failed_mutation_queryData|]. split.
  - intros id'. unfold cached. by rewrite failed_mutation_queryData.
  - intros between context snapshot Hctx Hq.
    rewrite queryData_onSettled. apply onError_restores.
    by rewrite (onMutate_context st variables context Hctx).
Qed.

Lemma failed_mutation_restores_snapshot_witness :
  queryData (onSettled (onError (onMutate sample_state like_v).1 like_v
                          (onMutate sample_state like_v).2))
  = Some [sample_video].
Proof.
  destruct (failed_mutation_restores_snapshot sample_state like_v)
    as (_ & _ & Hback).
  apply (Hback (onMutate sample_state like_v).1
               {| previousVideos := Some [sample_video];
                  previousLikedState := false |}
               [sample_video]).
  - vm_compute. reflexivity.
  - reflexivity.
Defined.

Lemma optimistic_like_present (user_id id' : string) (video : DanceVideo) :
  user_id ∈ default [] (liked_by video) ->
  optimistic user_id id' like video = video.
Proof.
  intros Hin. unfold optimistic. destruct (decide (id video = id')); [|done].
  by rewrite (bool_decide_eq_true_2 _ Hin).
Qed.

Lemma optimistic_dislike_absent (user_id id' : string) (video : DanceVideo) :
  user_id ∉ default [] (liked_by video) ->
  optimistic user_id id' dislike video = video.
Proof.
  intros Hnin. unfold optimistic. destruct (decide (id video = id')); [|done].
  by rewrite (bool_decide_eq_false_2 _ Hnin).
Qed.

Lemma optimistic_like_absent (user_id : string) (video : DanceVideo) :
  user_id ∉ default [] (liked_by video) ->
  optimistic user_id (id video) like video
  = with_likes video (likes video + 1) (default [] (liked_by video) ++ [user_id]).
Proof.
  intros Hnin. unfold optimistic. rewrite decide_True by done.
  by rewrite (bool_decide_eq_false_2 _ Hnin).
Qed.

Lemma optimistic_dislike_present (user_id : string) (video : DanceVideo) :
  user_id ∈ default [] (liked_by video) ->
  optimistic user_id (id video) dislike video
  = with_likes video (Z.max 0 (likes video - 1))
      (filter (fun uid => uid ≠ user_id) (default [] (liked_by video))).
Proof.
  intros Hin. unfold optimistic. rewrite decide_True by done.
  by rewrite (bool_decide_eq_true_2 _ Hin).
Qed.

Lemma optimistic_other_video (user_id id' : string) (action : Action)
    (video : DanceVideo) :
  id video ≠ id' -> optimistic user_id id' action video = video.
Proof. intros Hne. unfold optimistic. by rewrite decide_False. Qed.


Lemma optimistic_dislike_idempotent (user_id id' : string) (video : DanceVideo) :
  optimistic user_id id' dislike (optimistic user_id id' dislike video)
  = optimistic user_id id' dislike video.
Proof.
  destruct (decide (id video = id')) as [<-|Hne].
  - destruct (decide (user_id ∈ default [] (liked_by video))) as [Hin|Hnin].
    + rewrite optimistic_dislike_present by done.
      apply optimistic_dislike_absent. simpl.
      rewrite list_elem_of_filter. tauto.
    + by rewrite !(optimistic_dislike_absent _ _ video Hnin).
  - by rewrite !(optimistic_other_video _ _ _ video Hne).
Qed.

Lemma onMutate_session_user (st : State) (variables : Variables) :
  session_user (onMutate st variables).1 = session_user st.
Proof.
  unfold onMutate. destruct (session_user st) eqn:Hu; [|done].
  simpl. unfold setQueryData. by destruct (queryData st).
Qed.

Lemma onMutate_queryData (st : State) (variables : Variables) (user_id : string) :
  session_user st = Some user_id ->
  queryData (onMutate st variables).1
  = match queryData st with
    | None => None
    | Some old =>
        Some (optimistic user_id (v_id variables) (v_action variables) <$> old)
    end.
Proof.
  intros Hu. unfold onMutate. rewrite Hu. simpl.
  unfold setQueryData. by destruct (queryData st) eqn:Hq.
Qed.

Lemma optimistic_likes_nonneg (user_id id' : string) (action : Action)
    (video : DanceVideo) :
  0 <= likes video -> 0 <= likes (optimistic user_id id' action video).
Proof.
  intros Hpos. unfold optimistic.
  destruct (decide (id video = id')); [|done].
  destruct (bool_decide (action = like) && negb _); [simpl; lia|].
  destruct (bool_decide (action = dislike) && _); [simpl; lia | done].
Qed.

Lemma onMutate_likes_nonneg (st : State) (variables : Variables) :
  Forall (fun video => 0 <= likes video) (default [] (queryData st)) ->
  Forall (fun video => 0 <= likes video)
         (default [] (queryData (onMutate st variables).1)).
Proof.
  intros Hall. destruct (session_user st) as [user_id|] eqn:Hu.
  - rewrite (onMutate_queryData st variables user_id Hu).
    destruct (queryData st) as [videos|]; simpl in *; [|done].
    apply Forall_fmap. eapply Forall_impl; [exact Hall|].
    intros video. apply optimistic_likes_nonneg.
  - unfold onMutate. by rewrite Hu.
Qed.

Example like_twice :
  like_state <$> cached (optimistic_run sample_state [like_v; like_v]) "v"
  = Some (2, Some ["other"; "me"]).
Proof. vm_compute. reflexivity. Qed.

Example dislike_at_zero :
  like_state <$> cached (optimistic_run drained_state [dislike_v]) "v"
  = Some (0, Some []).
Proof. vm_compute. reflexivity. Qed.



Lemma onMutate_lookup (st : State) (variables : Variables) (user_id : string)
    (i : nat) (video : DanceVideo) :
  session_user st = Some user_id ->
  default [] (queryData st) !! i = Some video ->
  default [] (queryData (onMutate st variables).1) !! i
  = Some (optimistic user_id (v_id variables) (v_action variables) video).
Proof.
  intros Hu Hi. rewrite (onMutate_queryData st variables user_id Hu).
  destruct (queryData st) as [videos|]; simpl in *; [|discriminate].
  by rewrite list_lookup_fmap, Hi.
Qed.

(** C10.  The optimistic unlike of a video the user is recorded to like
    writes into the cache, in that video's place, the video with its
    count set to [max(0, likes - 1)] and the user taken out of its
    likers (and the optimistic like of a video the user is not recorded
    to like writes the count plus one); and over any run of optimistic
    likes and unlikes the cached likes counts, non-negative at the
    start, stay non-negative. *)
Theorem optimistic_run_likes_nonneg (st : State) (vs : list Variables) :
  (forall user_id video,
      user_id ∈ default [] (liked_by video) ->
      likes (optimistic user_id (id video) dislike video)
      = Z.max 0 (likes video - 1))
  /\ (forall (user_id : string) (i : nat) (video : DanceVideo),
        session_user st = Some user_id ->
        default [] (queryData st) !! i = Some video ->
        user_id ∈ default [] (liked_by video) ->
        default []
          (queryData (onMutate st {| v_id := id video; v_action := dislike |}).1)
          !! i
        = Some (with_likes video (Z.max 0 (likes video - 1))
                  (filter (fun uid => uid ≠ user_id) (default [] (liked_by video)))))
  /\ (forall (user_id : string) (i : nat) (video : DanceVideo),
        session_user st = Some user_id ->
        default [] (queryData st) !! i = Some video ->
        user_id ∉ default [] (liked_by video) ->
        default []
          (queryData (onMutate st {| v_id := id video; v_action := like |}).1)
          !! i
        = Some (with_likes video (likes video + 1)
                  (default [] (liked_by video) ++ [user_id])))
  /\ (forall variables,
        optimistic_run st (vs ++ [variables])
        = (onMutate (optimistic_run st vs) variables).1)
  /\ (Forall (fun video => 0 <= likes video) (default [] (queryData st)) ->
      Forall (fun video => 0 <= likes video)
             (default [] (queryData (optimistic_run st vs)))).
Proof.
  split; [|split; [|split; [|split]]].
  - intros user_id video Hin. by rewrite optimistic_dislike_present.
  - intros user_id i video Hu Hi Hin.
    rewrite (onMutate_lookup st _ user_id i video Hu Hi). simpl.
    by rewrite optimistic_dislike_present.
  - intros user_id i video Hu Hi Hnin.
    rewrite (onMutate_lookup st _ user_id i video Hu Hi). simpl.
    by rewrite optimistic_like_absent.
  - intros variables. unfold optimistic_run. by rewrite foldl_snoc.
  - revert st. induction vs as [|variables vs IH]; intros st Hall; [done|].
    unfold optimistic_run in *. simpl. apply IH.
    by apply onMutate_likes_nonneg.
Qed.

Lemma optimistic_run_likes_nonneg_witness :
  default [] (queryData (onMutate drained_state dislike_v).1) !! 0%nat
  = Some (with_likes drained_video 0 [])
  /\ Forall (fun video => 0 <= likes video)
        (default [] (queryData (optimistic_run drained_state
                                  [dislike_v; like_v; dislike_v; dislike_v]))).
Proof.
  destruct (optimistic_run_likes_nonneg drained_state
              [dislike_v; like_v; dislike_v; dislike_v])
    as (_ & Hunlike & _ & _ & Hrun).
  split.
  - apply (Hunlike "me" 0%nat drained_video).
    + reflexivity.
    + reflexivity.
    + vm_compute. apply list_elem_of_here.
  - apply Hrun. apply Forall_cons. split; [simpl; lia | apply Forall_nil_2].
Defined.

End LikeMutation.

(** * Further properties of the score calculator and of the corpus maxima *)

Section ScoreFacts.
Import Leaderboard.

(** More likes or more views, the other inputs unchanged, never lower
    the score. *)
Theorem calculateScore_monotone (likes likes' views views' maxLikes maxViews : Q) :
  (likes <= likes')%Q -> (views <= views')%Q ->
  calculateScore likes views maxLikes maxViews
  <= calculateScore likes' views' maxLikes maxViews.
Proof. apply calculateScore_mono. Qed.

Lemma calculateScore_monotone_witness :
  calculateScore 3 40 10 100 <= calculateScore 5 50 10 100.
Proof.
  apply (calculateScore_monotone 3 5 40 50 10 100); discriminate.
Defined.

(** No likes and no views score 0, whatever the maxima; likes and views
    both at maxima that are at least 1 score 100. *)
Theorem calculateScore_endpoints (maxLikes maxViews : Q) :
  calculateScore 0 0 maxLikes maxViews = 0
  /\ ((1 <= maxLikes)%Q -> (1 <= maxViews)%Q ->
      calculateScore maxLikes maxViews maxLikes maxViews = 100).
Proof.
  split; [apply calculateScore_zero | apply calculateScore_full].
Qed.

Lemma calculateScore_endpoints_witness :
  calculateScore 7 3 7 3 = 100.
Proof.
  apply (calculateScore_endpoints 7 3); discriminate.
Defined.

Lemma Math_max_spread_ge_last (xs : list Z) (last : Z) :
  last <= JS.Math_max_spread xs last.
Proof.
  unfold JS.Math_max_spread. induction xs as [|x xs IH]; simpl; lia.
Qed.

Lemma Math_max_spread_ge_elem (xs : list Z) (last x : Z) :
  x ∈ xs -> x <= JS.Math_max_spread xs last.
Proof.
  unfold JS.Math_max_spread. induction xs as [|y xs IH]; simpl.
  - intros Hx. inversion Hx.
  - intros Hx. apply elem_of_cons in Hx as [->|Hx]; [lia|].
    specialize (IH Hx). lia.
Qed.

Lemma Math_max_spread_attained (xs : list Z) (last : Z) :
  JS.Math_max_spread xs last = last \/ JS.Math_max_spread xs last ∈ xs.
Proof.
  unfold JS.Math_max_spread. induction xs as [|y xs IH]; simpl; [by left|].
  destruct (Z.max_spec y (foldr Z.max last xs)) as [[_ ->]|[_ ->]].
  - destruct IH as [IH|IH]; [by left|]. right. apply elem_of_cons. by right.
  - right. apply elem_of_cons. by left.
Qed.

Lemma corpus_max_bounds (count : Video -> Z) (videos : list Video) :
  let top := JS.Math_max_spread (count <$> videos) 1 in
  1 <= top
  /\ (forall video, video ∈ videos -> count video <= top)
  /\ (top = 1 \/ exists video, video ∈ videos /\ count video = top)
  /\ JS.gt (inject_Z top) 0 = true.
Proof.
  intros top. subst top. split; [apply Math_max_spread_ge_last|]. split; [|split].
  - intros video Hin. apply Math_max_spread_ge_elem.
    by apply (list_elem_of_fmap_2 count).
  - destruct (Math_max_spread_attained (count <$> videos) 1) as [H1|Hin];
      [by left|].
    right. apply list_elem_of_fmap in Hin as (video & Heq & Hin). by exists video.
  - apply gt_true. rewrite <- (Zlt_Qlt 0).
    pose proof (Math_max_spread_ge_last (count <$> videos) 1). lia.
Qed.

(** The normalisation maxima of a corpus are at least 1 and at least the
    count of every video (a missing count read as 0), and each is either
    1 or the count of some video: the score calculator never divides by
    zero, and a corpus whose counts are all below 1 is normalised by 1. *)
Theorem corpus_maxima_bounds (videos : list Video) :
  (1 <= maxLikes videos
   /\ (forall video, video ∈ videos -> JS.num_or (likes video) 0 <= maxLikes videos)
   /\ (maxLikes videos = 1
       \/ exists video, video ∈ videos
                        /\ JS.num_or (likes video) 0 = maxLikes videos)
   /\ JS.gt (inject_Z (maxLikes videos)) 0 = true)
  /\ (1 <= maxViews videos
      /\ (forall video, video ∈ videos -> JS.num_or (views video) 0 <= maxViews videos)
      /\ (maxViews videos = 1
          \/ exists video, video ∈ videos
                           /\ JS.num_or (views video) 0 = maxViews videos)
      /\ JS.gt (inject_Z (maxViews videos)) 0 = true).
Proof.
  split.
  - apply (corpus_max_bounds (fun v => JS.num_or (likes v) 0)).
  - apply (corpus_max_bounds (fun v => JS.num_or (views v) 0)).
Qed.

Lemma corpus_maxima_bounds_witness :
  JS.num_or (Some 5) 0 <= maxLikes sample_videos.
Proof.
  destruct (corpus_maxima_bounds sample_videos) as ((_ & Hall & _) & _).
  apply (Hall {| id := "o"; title := "old"; likes := Some 5; views := Some 50;
                 user_id := "u1";
                 users := Some {| username := Some "ann"; avatar_url := None |} |}).
  vm_compute. apply list_elem_of_further, list_elem_of_further, list_elem_of_here.
Defined.

End ScoreFacts.

(** * Further properties of the reducer and of the ranking *)

Section ReducerFacts.
Import Leaderboard.

Lemma get_reduce_step (m : JsMap.t UserScore) (video : VideoScore) (u : string) :
  JsMap.get (reduce_step m video) u
  = if decide (vs_user_id video = u)
    then (if replaces video (JsMap.get m u)
          then Some (toUserScore video) else JsMap.get m u)
    else JsMap.get m u.
Proof.
  unfold reduce_step. destruct (decide (vs_user_id video = u)) as [<-|Hne].
  - destruct (replaces video _); [apply get_set_eq | done].
  - destruct (replaces video _); [by apply get_set_ne | done].
Qed.

Lemma foldl_reduce_step_local (u : string) (videoScores : list VideoScore)
    (m m' : JsMap.t UserScore) :
  JsMap.get m u = JsMap.get m' u ->
  JsMap.get (foldl reduce_step m videoScores) u
  = JsMap.get (foldl reduce_step m'
                 (filter (fun video => vs_user_id video = u) videoScores)) u.
Proof.
  revert m m'. induction videoScores as [|video videoScores IH]; intros m m' Hm;
    [done|].
  simpl. rewrite filter_cons.
  destruct (decide (vs_user_id video = u)) as [Hu|Hu]; simpl; apply IH.
  - rewrite !get_reduce_step, !decide_True by done. by rewrite Hm.
  - rewrite get_reduce_step, decide_False by done. exact Hm.
Qed.

(** The entry the reducer holds for a user is the one it computes from
    that user's videos alone: the videos of other users, wherever they
    stand in the corpus, have no influence on it. *)
Theorem userBestVideos_local (videoScores : list VideoScore) (u : string) :
  JsMap.get (userBestVideos videoScores) u
  = JsMap.get (userBestVideos
                 (filter (fun video => vs_user_id video = u) videoScores)) u.
Proof. unfold userBestVideos. by apply foldl_reduce_step_local. Qed.

Lemma keys_reduce_step (m : JsMap.t UserScore) (video : VideoScore) :
  JsMap.keys (reduce_step m video)
  = if decide (vs_user_id video ∈ JsMap.keys m)
    then JsMap.keys m else JsMap.keys m ++ [vs_user_id video].
Proof.
  unfold reduce_step. destruct (decide (vs_user_id video ∈ JsMap.keys m)) as [Hin|Hnin].
  - destruct (replaces video _); [by apply keys_set_present | done].
  - rewrite (proj2 (get_None m (vs_user_id video)) Hnin). simpl.
    by apply keys_set_absent.
Qed.

Lemma filter_all {A} (P : A -> Prop) `{!forall x, Decision (P x)} (l : list A) :
  (forall x, P x) -> filter P l = l.
Proof.
  intros HP. induction l as [|x l IH]; [done|].
  by rewrite filter_cons_True, IH.
Qed.

Lemma foldl_reduce_step_keys (videoScores : list VideoScore) (m : JsMap.t UserScore) :
  JsMap.keys (foldl reduce_step m videoScores)
  = JsMap.keys m
    ++ filter (fun u => u ∉ JsMap.keys m)
         (first_occurrences (vs_user_id <$> videoScores)).
Proof.
  revert m. induction videoScores as [|video videoScores IH]; intros m.
  - simpl. by rewrite app_nil_r.
  - simpl. rewrite IH, keys_reduce_step.
    destruct (decide (vs_user_id video ∈ JsMap.keys m)) as [Hin|Hnin].
    + rewrite filter_cons_False by (intros Hn; by apply Hn).
      f_equal. symmetry. apply list_filter_filter_l.
      intros x Hx ->. by apply Hx.
    + rewrite filter_cons_True by done. rewrite <- app_assoc. simpl.
      do 2 f_equal. rewrite list_filter_filter. apply list_filter_iff.
      intros x. rewrite not_elem_of_app, list_elem_of_singleton. done.
Qed.

Lemma userBestVideos_keys_order (videoScores : list VideoScore) :
  JsMap.keys (userBestVideos videoScores)
  = first_occurrences (vs_user_id <$> videoScores).
Proof.
  unfold userBestVideos. rewrite foldl_reduce_step_keys. simpl.
  apply filter_all. intros x Hx. inversion Hx.
Qed.

Lemma userBestVideos_size (videoScores : list VideoScore) :
  JsMap.size (userBestVideos videoScores)
  = length (first_occurrences (vs_user_id <$> videoScores)).
Proof.
  rewrite <- userBestVideos_keys_order.
  unfold JsMap.size, JsMap.keys. by rewrite length_fmap.
Qed.

(** The map of best videos lists the users in the order in which they
    first appear in the corpus; its size is the number of distinct
    users. *)
Theorem userBestVideos_insertion_order (videoScores : list VideoScore) :
  JsMap.keys (userBestVideos videoScores)
  = first_occurrences (vs_user_id <$> videoScores)
  /\ JsMap.size (userBestVideos videoScores)
     = length (first_occurrences (vs_user_id <$> videoScores)).
Proof.
  split; [apply userBestVideos_keys_order | apply userBestVideos_size].
Qed.

(** Entries that tie on score, likes and views keep, in the ranking, the
    order they have in the map of best videos. *)
Theorem userRankings_stable (m : JsMap.t UserScore) (key : UserScore) :
  filter (same_rank_key key) (userRankings m)
  = filter (same_rank_key key) (JsMap.values m).
Proof.
  unfold userRankings. apply sort_stable.
  intros a b (Hs & Hl & Hv) (Hs' & Hl' & Hv'). unfold compareRankings.
  rewrite <- Hs, <- Hs', Z.eqb_refl. simpl.
  rewrite <- Hl, <- Hl', Z.eqb_refl. simpl. lia.
Qed.

(** The summary of the answer has at most ten rows, and its row at each
    position carries the rank, the video and the score of the entry
    published at that position. *)
Theorem top10_agrees (stamp : nat -> string) (userRankings : list UserScore) :
  length (top10 userRankings) = Nat.min 10 (length userRankings)
  /\ (forall (i : nat) (row : Top10Entry),
        top10 userRankings !! i = Some row ->
        (i < 10)%nat
        /\ exists entry,
            leaderboardEntries stamp userRankings !! i = Some entry
            /\ t_rank row = le_rank entry
            /\ t_best_video_id row = le_video_id entry
            /\ t_score row = le_score entry).
Proof.
  unfold top10, leaderboardEntries. split.
  - by rewrite length_imap, length_take.
  - intros i row. rewrite !list_lookup_imap.
    destruct (take 10 userRankings !! i) as [user|] eqn:Htake; [|discriminate].
    apply lookup_take_Some in Htake as [Hi Hlt].
    simpl. intros [= <-]. split; [exact Hlt|].
    rewrite Hi. simpl. by eexists.
Qed.

Lemma top10_agrees_witness :
  (0 < 10)%nat
  /\ exists entry,
      leaderboardEntries (fun _ => "t") (userRankings sample_entries) !! 0%nat
      = Some entry
      /\ 1 = le_rank entry /\ "a" = le_video_id entry /\ 50 = le_score entry.
Proof.
  destruct (top10_agrees (fun _ => "t") (userRankings sample_entries)) as [_ Hrow].
  apply (Hrow 0%nat {| t_rank := 1; t_user_id := "u1"; t_username := "ann";
                       t_avatar_url := None; t_best_video_id := "a";
                       t_best_video_title := "a";
                       t_score := 50; t_likes := 2; t_views := 100 |}).
  reflexivity.
Defined.

(** The user name attached to a scored video is never empty: a missing
    user, a null name and an empty name all give "Anonymous"; and the
    avatar reference is never an empty string. *)
Theorem videoScore_placeholders (maxLikes maxViews : Z) (video : Video) :
  vs_username (videoScore maxLikes maxViews video) ≠ EmptyString
  /\ vs_avatar_url (videoScore maxLikes maxViews video) ≠ Some EmptyString
  /\ (users video ≫= username = None \/ users video ≫= username = Some EmptyString ->
      vs_username (videoScore maxLikes maxViews video) = "Anonymous").
Proof.
  unfold videoScore; simpl. split; [|split].
  - unfold JS.str_or. destruct (users video ≫= username) as [name|]; [|done].
    by destruct (decide (name = EmptyString)).
  - unfold JS.str_or_null. destruct (users video ≫= avatar_url) as [url|]; [|done].
    destruct (decide (url = EmptyString)); [done|]. by intros [= ->].
  - intros [-> | ->]; reflexivity.
Qed.

Lemma videoScore_placeholders_witness :
  vs_username (videoScore 10 100
                 {| id := "t"; title := "top"; likes := Some 10; views := Some 100;
                    user_id := "u2"; users := None |}) = "Anonymous".
Proof.
  destruct (videoScore_placeholders 10 100
              {| id := "t"; title := "top"; likes := Some 10; views := Some 100;
                 user_id := "u2"; users := None |}) as (_ & _ & Hdefault).
  apply Hdefault. by left.
Defined.

End ReducerFacts.

(** * Further properties of the handler *)

Section HandlerFacts.
Import Leaderboard.

Lemma update_leaderboard_insert_error (env : Env) (w : World)
    (video : Video) (videos : list Video) (insertError : PgError) :
  select_videos env = inr (Some (video :: videos)) ->
  delete_error env = None ->
  insert_error env = Some insertError ->
  (update_leaderboard env w).1 = inl insertError
  /\ leaderboard (update_leaderboard env w).2 = surviving_rows (leaderboard w).
Proof.
  intros Hsel Hdel Hins.
  unfold update_leaderboard, bind, db_select_videos, stamped_entries,
    db_delete_leaderboard, db_insert_leaderboard.
  by rewrite Hsel, Hdel, Hins.
Qed.

Lemma update_leaderboard_success (env : Env) (w : World)
    (video : Video) (videos : list Video) :
  select_videos env = inr (Some (video :: videos)) ->
  delete_error env = None ->
  insert_error env = None ->
  let rankings := userRankings (userBestVideos (videoScores (video :: videos))) in
  let entries := computed_entries env w (video :: videos) in
  (update_leaderboard env w).1
  = inr {| status := 200; headers := jsonHeaders;
           body := BodyUpdated "Leaderboard updated successfully"
                     (Z.of_nat (length entries))
                     (Z.of_nat (JsMap.size
                                  (userBestVideos (videoScores (video :: videos)))))
                     (clock env (ticks w + length rankings))
                     (top10 rankings) |}
  /\ leaderboard (update_leaderboard env w).2
     = surviving_rows (leaderboard w) ++ inserted_rows env entries.
Proof.
  intros Hsel Hdel Hins.
  unfold update_leaderboard, bind, db_select_videos, stamped_entries,
    db_delete_leaderboard, db_insert_leaderboard, now, ret.
  by rewrite Hsel, Hdel, Hins.
Qed.

Lemma handler_not_options (env : Env) (req : Request) (w : World) :
  method req ≠ "OPTIONS" ->
  handler env req w
  = match update_leaderboard env w with
    | (inr response, w') => (response, w')
    | (inl error, w') =>
        ({| status := 500; headers := jsonHeaders;
            body := BodyError (JS.str_or (message error) "Internal server error")
                              (clock env (ticks w')) |},
         advance 1 w')
    end.
Proof. intros Hm. unfold handler. by rewrite decide_False. Qed.

Lemma computed_entries_length (env : Env) (w : World) (videos : list Video) :
  length (computed_entries env w videos)
  = length (first_occurrences (user_id <$> videos)).
Proof.
  unfold computed_entries, leaderboardEntries. rewrite length_imap.
  unfold userRankings. rewrite (Permutation_length (sort_Permutation _ _)).
  unfold JsMap.values. rewrite length_fmap.
  pose proof (userBestVideos_size (videoScores videos)) as Hsize.
  unfold JsMap.size in Hsize. rewrite Hsize.
  unfold videoScores. by rewrite <- list_fmap_compose.
Qed.

(** A run in which the read, the delete and the insert all succeed
    answers 200 and leaves in the table the new rows, one per distinct
    user of the corpus with ranks 1, 2, ..., after whatever rows the
    delete left: it removes every row except those whose [id] is the nil
    UUID.  The answer's [updated] and [total_users] both are the number
    of distinct users. *)
Theorem handler_success_publishes (env : Env) (req : Request) (w : World)
    (video : Video) (videos : list Video) :
  method req ≠ "OPTIONS" ->
  select_videos env = inr (Some (video :: videos)) ->
  delete_error env = None ->
  insert_error env = None ->
  let entries := computed_entries env w (video :: videos) in
  let distinct := length (first_occurrences (user_id <$> video :: videos)) in
  leaderboard (handler env req w).2
  = surviving_rows (leaderboard w) ++ inserted_rows env entries
  /\ length entries = distinct
  /\ le_rank <$> entries = Z.of_nat <$> seq 1 distinct
  /\ status (handler env req w).1 = 200
  /\ (exists timestamp summary,
        body (handler env req w).1
        = BodyUpdated "Leaderboard updated successfully"
            (Z.of_nat distinct) (Z.of_nat distinct) timestamp summary).
Proof.
  intros Hm Hsel Hdel Hins entries distinct. subst entries distinct.
  destruct (update_leaderboard_success env w video videos Hsel Hdel Hins)
    as [Hresp Hboard].
  pose proof (computed_entries_length env w (video :: videos)) as Hlen.
  rewrite (handler_not_options env req w Hm).
  destruct (update_leaderboard env w) as [[error|response] w'] eqn:Hrun;
    simpl in Hresp, Hboard; [discriminate|].
  injection Hresp as ->.
  split; [exact Hboard|]. split; [exact Hlen|]. split; [|split; [done|]].
  - rewrite <- Hlen. unfold computed_entries.
    rewrite leaderboardEntries_ranks. unfold leaderboardEntries.
    by rewrite length_imap.
  - eexists _, _. cbn [fst body]. f_equal.
    + by rewrite Hlen.
    + rewrite userBestVideos_size. unfold videoScores.
      by rewrite <- list_fmap_compose.
Qed.

Lemma handler_success_publishes_witness :
  leaderboard (handler sample_env post published_world).2
  = surviving_rows (leaderboard published_world)
    ++ inserted_rows sample_env
         (computed_entries sample_env published_world sample_videos).
Proof.
  destruct (handler_success_publishes sample_env post published_world
              {| id := "n"; title := "new"; likes := Some 5; views := Some 50;
                 user_id := "u1";
                 users := Some {| username := Some "ann"; avatar_url := None |} |}
              [ {| id := "t"; title := "top"; likes := Some 10; views := Some 100;
                   user_id := "u2"; users := None |};
                {| id := "o"; title := "old"; likes := Some 5; views := Some 50;
                   user_id := "u1";
                   users := Some {| username := Some "ann"; avatar_url := None |} |} ])
    as (Hboard & _).
  - vm_compute. discriminate.
  - reflexivity.
  - reflexivity.
  - reflexivity.
  - exact Hboard.
Defined.

(** When the delete succeeds and the insert then fails, the run answers
    500 and the table is left without the rows it had (only rows whose
    [id] is the nil UUID remain) and without the new ones: the
    replacement is not atomic. *)
Theorem handler_insert_failure_clears (env : Env) (req : Request) (w : World)
    (video : Video) (videos : list Video) (insertError : PgError) :
  method req ≠ "OPTIONS" ->
  select_videos env = inr (Some (video :: videos)) ->
  delete_error env = None ->
  insert_error env = Some insertError ->
  leaderboard (handler env req w).2 = surviving_rows (leaderboard w)
  /\ status (handler env req w).1 = 500
  /\ (exists timestamp,
        body (handler env req w).1
        = BodyError (JS.str_or (message insertError) "Internal server error")
                    timestamp)
  /\ issued env req w
     = [SelectVideos; DeleteLeaderboard;
        InsertLeaderboard (computed_entries env w (video :: videos))].
Proof.
  intros Hm Hsel Hdel Hins.
  destruct (update_leaderboard_insert_error env w video videos insertError
              Hsel Hdel Hins) as [Hresp Hboard].
  assert (Hcalls := update_leaderboard_calls_delete_ok env w video videos Hsel Hdel).
  assert (Hissued : issued env req w
                    = [SelectVideos; DeleteLeaderboard;
                       InsertLeaderboard (computed_entries env w (video :: videos))]).
  { apply issued_app. by rewrite (proj1 (handler_world env req w Hm)). }
  rewrite (handler_not_options env req w Hm).
  destruct (update_leaderboard env w) as [[error|response] w'] eqn:Hrun;
    simpl in Hresp, Hboard; [|discriminate].
  injection Hresp as ->. simpl.
  split; [exact Hboard|]. split; [done|]. split; [by eexists | exact Hissued].
Qed.

Lemma handler_insert_failure_clears_witness :
  leaderboard
    (handler {| select_videos := inr (Some sample_videos);
                delete_error := None;
                insert_error := Some {| message := None |};
                new_row_id := fun _ => "row";
                clock := fun _ => "now" |} post published_world).2
  = [].
Proof.
  destruct (handler_insert_failure_clears
              {| select_videos := inr (Some sample_videos);
                 delete_error := None;
                 insert_error := Some {| message := None |};
                 new_row_id := fun _ => "row";
                 clock := fun _ => "now" |} post published_world
              {| id := "n"; title := "new"; likes := Some 5; views := Some 50;
                 user_id := "u1";
                 users := Some {| username := Some "ann"; avatar_url := None |} |}
              [ {| id := "t"; title := "top"; likes := Some 10; views := Some 100;
                   user_id := "u2"; users := None |};
                {| id := "o"; title := "old"; likes := Some 5; views := Some 50;
                   user_id := "u1";
                   users := Some {| username := Some "ann"; avatar_url := None |} |} ]
              {| message := None |})
    as (Hboard & _).
  - vm_compute. discriminate.
  - reflexivity.
  - reflexivity.
  - reflexivity.
  - exact Hboard.
Defined.

Lemma handler_status_of_run (env : Env) (req : Request) (w : World) :
  method req ≠ "OPTIONS" ->
  status (handler env req w).1
  = match (update_leaderboard env w).1 with
    | inl _ => 500
    | inr response => status response
    end.
Proof.
  intros Hm. rewrite (handler_not_options env req w Hm).
  by destruct (update_leaderboard env w) as [[error|response] w'].
Qed.

(** Every answer has status 200 or 500, and it is 500 exactly when the
    request is not a preflight and a store call the run issued reported
    an error: the read, or, on a corpus that is not empty, the delete or
    the insert. *)
Theorem handler_status (env : Env) (req : Request) (w : World) :
  (status (handler env req w).1 = 200 \/ status (handler env req w).1 = 500)
  /\ (status (handler env req w).1 = 500 <->
      method req ≠ "OPTIONS"
      /\ ((exists fetchError, select_videos env = inl fetchError)
          \/ (exists video videos,
                select_videos env = inr (Some (video :: videos))
                /\ (is_Some (delete_error env) \/ is_Some (insert_error env))))).
Proof.
  destruct (decide (method req = "OPTIONS")) as [Hm|Hm].
  { rewrite handler_options by done. simpl. split; [by left|].
    split; [discriminate | by intros [? _]]. }
  rewrite (handler_status_of_run env req w Hm).
  destruct (select_videos env) as [fetchError|[[|video videos]|]] eqn:Hsel.
  - rewrite (update_leaderboard_fetch_error env w fetchError Hsel). simpl.
    split; [by right|]. split; [|done]. intros _. split; [done|]. left. by eexists.
  - rewrite (update_leaderboard_no_videos env w (or_intror Hsel)). simpl.
    split; [by left|]. split; [discriminate|].
    intros [_ [[e He]|(v & vs & Hv & _)]]; discriminate.
  - destruct (delete_error env) as [deleteError|] eqn:Hdel.
    + rewrite (update_leaderboard_delete_error env w video videos deleteError
                 Hsel Hdel). simpl.
      split; [by right|]. split; [|done]. intros _. split; [done|].
      right. exists video, videos. split; [done|]. left. by eexists.
    + destruct (insert_error env) as [insertError|] eqn:Hins.
      * rewrite (proj1 (update_leaderboard_insert_error env w video videos
                          insertError Hsel Hdel Hins)).
        split; [by right|]. split; [|done]. intros _. split; [done|].
        right. exists video, videos. split; [done|]. right. by eexists.
      * rewrite (proj1 (update_leaderboard_success env w video videos
                          Hsel Hdel Hins)). simpl.
        split; [by left|]. split; [discriminate|].
        intros [_ [[e He]|(v & vs & Hv & [[e He]|[e He]])]]; discriminate.
  - rewrite (update_leaderboard_no_videos env w (or_introl Hsel)). simpl.
    split; [by left|]. split; [discriminate|].
    intros [_ [[e He]|(v & vs & Hv & _)]]; discriminate.
Qed.

Lemma handler_status_witness :
  status (handler failing_read_env post published_world).1 = 500.
Proof.
  destruct (handler_status failing_read_env post published_world) as [_ Hiff].
  apply Hiff. split.
  - vm_compute. discriminate.
  - left. by eexists.
Defined.

End HandlerFacts.

(** * Further properties of the like mutation *)

Section LikeFacts.
Import Home.

Lemma setLikedVideos_same (f : gset string -> gset string) (st : State) :
  f (likedVideos st) = likedVideos st -> setLikedVideos f st = st.
Proof. destruct st. unfold setLikedVideos. simpl. by intros ->. Qed.

Lemma rollback_likedVideos (lv : gset string) (i : string) (a : Action) :
  (if bool_decide (i ∈ lv)
   then (if bool_decide (a = like) then lv ∪ {[i]} else lv ∖ {[i]}) ∪ {[i]}
   else (if bool_decide (a = like) then lv ∪ {[i]} else lv ∖ {[i]}) ∖ {[i]})
  = lv.
Proof.
  apply set_eq. intros x.
  destruct (decide (i ∈ lv)) as [Hin|Hnin].
  - rewrite (bool_decide_eq_true_2 _ Hin).
    destruct (bool_decide (a = like));
      rewrite ?elem_of_union, ?elem_of_difference, !elem_of_singleton;
      destruct (decide (x = i)) as [->|Hx]; tauto.
  - rewrite (bool_decide_eq_false_2 _ Hnin).
    destruct (bool_decide (a = like));
      rewrite ?elem_of_difference, ?elem_of_union, ?elem_of_difference,
        !elem_of_singleton;
      destruct (decide (x = i)) as [->|Hx]; tauto.
Qed.

Lemma failed_mutation_onSettled (st : State) (variables : Variables) :
  failed_mutation st variables = onSettled st.
Proof.
  destruct st as [u q r lv], variables as [i a].
  unfold failed_mutation, onMutate. simpl.
  destruct u as [u|]; simpl; [|reflexivity].
  unfold onSettled, onError, setLikedVideos, setQueryData. simpl.
  destruct q as [videos|]; simpl; by rewrite rollback_likedVideos.
Qed.

(** A like or unlike whose remote call fails leaves, once settled, the
    whole state of the feed as it was before the press, the liked set
    included; only the refetch has been asked for. *)
Theorem failed_mutation_restores_state (st : State) (variables : Variables) :
  failed_mutation st variables = onSettled st.
Proof. apply failed_mutation_onSettled. Qed.

Lemma filter_ne_snoc (u : string) (l : list string) :
  u ∉ l -> filter (fun uid => uid ≠ u) (l ++ [u]) = l.
Proof.
  intros Hnin. rewrite filter_app.
  rewrite (filter_cons_False _ u []) by (intros Hn; by apply Hn).
  rewrite filter_nil, app_nil_r.
  induction l as [|x l IH]; [done|].
  apply not_elem_of_cons in Hnin as [Hne Hnin].
  rewrite filter_cons_True by (intros ->; done). f_equal. by apply IH.
Qed.

Lemma filter_ne_not_elem (u : string) (l : list string) :
  u ∉ filter (fun uid => uid ≠ u) l.
Proof. rewrite list_elem_of_filter. tauto. Qed.

Lemma filter_ne_length (u : string) (l : list string) :
  NoDup l -> u ∈ l ->
  S (length (filter (fun uid => uid ≠ u) l)) = length l.
Proof.
  induction 1 as [|x l Hx Hl IH]; intros Hu; [inversion Hu|].
  apply elem_of_cons in Hu as [->|Hu].
  - rewrite filter_cons_False by (intros Hn; by apply Hn).
    simpl. f_equal. f_equal. clear IH Hl.
    induction l as [|y l IH]; [done|].
    apply not_elem_of_cons in Hx as [Hne Hx].
    rewrite filter_cons_True by (intros ->; done). f_equal. by apply IH.
  - rewrite filter_cons_True by (intros ->; done). simpl. f_equal. by apply IH.
Qed.

(** An optimistic like followed by an optimistic unlike of the same video
    by the same user gives back the likes count and the list of likers,
    when the user was not among the likers and the count was not
    negative. *)
Theorem like_then_dislike (user_id : string) (video : DanceVideo) :
  user_id ∉ default [] (liked_by video) -> 0 <= likes video ->
  optimistic user_id (id video) dislike (optimistic user_id (id video) like video)
  = with_likes video (likes video) (default [] (liked_by video)).
Proof.
  intros Hnin Hpos. rewrite optimistic_like_absent by done.
  set (liked := with_likes video (likes video + 1)
                  (default [] (liked_by video) ++ [user_id])).
  change (id video) with (id liked).
  rewrite optimistic_dislike_present
    by (simpl; apply elem_of_app; right; by apply list_elem_of_singleton).
  unfold liked, with_likes. simpl. rewrite filter_ne_snoc by done.
  f_equal. lia.
Qed.

Lemma like_then_dislike_witness :
  optimistic "me" "v" dislike (optimistic "me" "v" like sample_video)
  = sample_video.
Proof.
  apply (like_then_dislike "me" sample_video).
  - vm_compute. intros Hin. apply list_elem_of_singleton in Hin. discriminate.
  - vm_compute. discriminate.
Defined.

(** An optimistic unlike followed by an optimistic like does not in
    general give the count back: the count becomes [max(1, likes)], so a
    count that was zero or less ends at 1; the user ends up listed once,
    at the end of the likers. *)
Theorem dislike_then_like (user_id : string) (video : DanceVideo) :
  user_id ∈ default [] (liked_by video) ->
  optimistic user_id (id video) like (optimistic user_id (id video) dislike video)
  = with_likes video (Z.max 1 (likes video))
      (filter (fun uid => uid ≠ user_id) (default [] (liked_by video)) ++ [user_id]).
Proof.
  intros Hin. rewrite optimistic_dislike_present by done.
  set (unliked := with_likes video (Z.max 0 (likes video - 1))
                    (filter (fun uid => uid ≠ user_id) (default [] (liked_by video)))).
  change (id video) with (id unliked).
  rewrite optimistic_like_absent by (simpl; apply filter_ne_not_elem).
  unfold unliked, with_likes. simpl. f_equal. lia.
Qed.

Lemma dislike_then_like_witness :
  likes (optimistic "me" "v" like (optimistic "me" "v" dislike drained_video)) = 1.
Proof.
  pose proof (dislike_then_like "me" drained_video) as Hback.
  change (id drained_video) with "v" in Hback.
  rewrite Hback; [reflexivity|].
  vm_compute. apply list_elem_of_here.
Defined.

Lemma optimistic_consistent (user_id id' : string) (action : Action)
    (video : DanceVideo) :
  consistent video -> consistent (optimistic user_id id' action video).
Proof.
  intros [Hnd Hlen].
  destruct (decide (id video = id')) as [<-|Hne];
    [|by rewrite optimistic_other_video].
  destruct action.
  - destruct (decide (user_id ∈ default [] (liked_by video))) as [Hin|Hnin].
    + by rewrite optimistic_like_present.
    + rewrite optimistic_like_absent by done. split; simpl.
      * apply NoDup_app. split; [done|]. split; [|apply NoDup_singleton].
        intros x Hx Hx'. apply list_elem_of_singleton in Hx'. by subst.
      * rewrite length_app. simpl. lia.
  - destruct (decide (user_id ∈ default [] (liked_by video))) as [Hin|Hnin].
    + rewrite optimistic_dislike_present by done. split; simpl.
      * by apply NoDup_filter.
      * pose proof (filter_ne_length user_id _ Hnd Hin). lia.
    + by rewrite optimistic_dislike_absent.
Qed.

(** Over any run of optimistic likes and unlikes, cached videos whose
    likes count equals the number of their likers, listed without
    repetition, stay so. *)
Theorem optimistic_run_consistent (st : State) (vs : list Variables) :
  Forall consistent (cachedVideos st) ->
  Forall consistent (cachedVideos (optimistic_run st vs)).
Proof.
  revert st. induction vs as [|variables vs IH]; intros st Hall; [done|].
  unfold optimistic_run in *. simpl. apply IH. unfold cachedVideos in *.
  destruct (session_user st) as [user_id|] eqn:Hu.
  - rewrite (onMutate_queryData st variables user_id Hu).
    destruct (queryData st) as [videos|]; simpl in *; [|done].
    apply Forall_fmap. eapply Forall_impl; [exact Hall|].
    intros video. apply optimistic_consistent.
  - unfold onMutate. by rewrite Hu.
Qed.

Lemma optimistic_run_consistent_witness :
  Forall consistent
    (cachedVideos (optimistic_run sample_state [like_v; dislike_v; like_v])).
Proof.
  apply (optimistic_run_consistent sample_state [like_v; dislike_v; like_v]).
  apply Forall_cons. split; [|apply Forall_nil_2].
  split; [apply NoDup_singleton | reflexivity].
Defined.

Lemma without_likes_optimistic (user_id id' : string) (action : Action)
    (video : DanceVideo) :
  without_likes (optimistic user_id id' action video) = without_likes video.
Proof.
  unfold optimistic. destruct (decide (id video = id')); [|done].
  destruct (bool_decide (action = like) && _); [done|].
  by destruct (bool_decide (action = dislike) && _).
Qed.

(** The optimistic update of a like or unlike keeps the signed-in user
    and the cached videos in their order, alters nothing but likes
    counts and lists of likers, and leaves every video with another
    identifier exactly as it is. *)
Theorem onMutate_frame (st : State) (variables : Variables) :
  session_user (onMutate st variables).1 = session_user st
  /\ without_likes <$> cachedVideos (onMutate st variables).1
     = without_likes <$> cachedVideos st
  /\ (forall (i : nat) (video : DanceVideo),
        cachedVideos st !! i = Some video -> id video ≠ v_id variables ->
        cachedVideos (onMutate st variables).1 !! i = Some video).
Proof.
  split; [apply onMutate_session_user|]. unfold cachedVideos.
  destruct (session_user st) as [user_id|] eqn:Hu.
  - rewrite (onMutate_queryData st variables user_id Hu).
    destruct (queryData st) as [videos|]; simpl; [|done]. split.
    + rewrite <- list_fmap_compose. apply list_fmap_ext.
      intros i video _. apply without_likes_optimistic.
    + intros i video Hi Hne. rewrite list_lookup_fmap, Hi. simpl.
      by rewrite optimistic_other_video.
  - unfold onMutate. by rewrite Hu.
Qed.

Lemma onMutate_frame_witness :
  cachedVideos (onMutate sample_state {| v_id := "w"; v_action := like |}).1
    !! 0%nat
  = Some sample_video.
Proof.
  destruct (onMutate_frame sample_state {| v_id := "w"; v_action := like |})
    as (_ & _ & Hother).
  apply Hother; [reflexivity|]. vm_compute. discriminate.
Defined.

End LikeFacts.

(** * Properties of the like button and of the liked set *)

Section LikeButton.
Import Home.

Lemma likedVideos_onMutate (st : State) (variables : Variables) (user_id : string) :
  session_user st = Some user_id ->
  likedVideos (onMutate st variables).1
  = if bool_decide (v_action variables = like)
    then likedVideos st ∪ {[ v_id variables ]}
    else likedVideos st ∖ {[ v_id variables ]}.
Proof.
  intros Hu. unfold onMutate. rewrite Hu. simpl.
  unfold setQueryData. by destruct (queryData st) eqn:Hq.
Qed.

Lemma likedVideos_press (st : State) (videoId : string) (user_id : string) :
  session_user st = Some user_id ->
  likedVideos (handleLikeDislikePress st videoId)
  = if bool_decide (videoId ∈ likedVideos st)
    then likedVideos st ∖ {[ videoId ]}
    else likedVideos st ∪ {[ videoId ]}.
Proof.
  intros Hu. unfold handleLikeDislikePress. rewrite Hu.
  rewrite (likedVideos_onMutate _ _ user_id Hu). unfold pressAction. simpl.
  by destruct (bool_decide (videoId ∈ likedVideos st)).
Qed.

Lemma session_user_press (st : State) (videoId : string) :
  session_user (handleLikeDislikePress st videoId) = session_user st.
Proof.
  unfold handleLikeDislikePress. destruct (session_user st) eqn:Hu; [|done].
  by rewrite onMutate_session_user.
Qed.

(** A press of the like button by a signed-in user flips the membership
    of that video in the liked set and of no other, so two presses in a
    row give the liked set back; without a signed-in user a press does
    nothing. *)
Theorem handleLikeDislikePress_toggles (st : State) (videoId : string) :
  (session_user st = None -> handleLikeDislikePress st videoId = st)
  /\ (is_Some (session_user st) ->
      (videoId ∈ likedVideos (handleLikeDislikePress st videoId)
       <-> videoId ∉ likedVideos st)
      /\ (forall other, other ≠ videoId ->
            (other ∈ likedVideos (handleLikeDislikePress st videoId)
             <-> other ∈ likedVideos st))
      /\ likedVideos (handleLikeDislikePress
                        (handleLikeDislikePress st videoId) videoId)
         = likedVideos st).
Proof.
  split.
  { intros Hu. unfold handleLikeDislikePress. by rewrite Hu. }
  intros [user_id Hu].
  assert (Hflip : forall st', session_user st' = Some user_id ->
            forall x, x ∈ likedVideos (handleLikeDislikePress st' videoId)
                      <-> (if decide (x = videoId)
                           then x ∉ likedVideos st' else x ∈ likedVideos st')).
  { intros st' Hu' x. rewrite (likedVideos_press st' videoId user_id Hu').
    destruct (decide (videoId ∈ likedVideos st')) as [Hin|Hnin].
    - rewrite (bool_decide_eq_true_2 _ Hin), elem_of_difference, elem_of_singleton.
      destruct (decide (x = videoId)) as [->|Hx]; tauto.
    - rewrite (bool_decide_eq_false_2 _ Hnin), elem_of_union, elem_of_singleton.
      destruct (decide (x = videoId)) as [->|Hx]; tauto. }
  split; [|split].
  - rewrite (Hflip st Hu). by rewrite decide_True.
  - intros other Hne. rewrite (Hflip st Hu). by rewrite decide_False.
  - apply set_eq. intros x.
    rewrite (Hflip (handleLikeDislikePress st videoId))
      by (by rewrite session_user_press).
    destruct (decide (x = videoId)) as [->|Hx].
    + rewrite (Hflip st Hu), decide_True by done.
      destruct (decide (videoId ∈ likedVideos st)); tauto.
    + rewrite (Hflip st Hu). by rewrite decide_False.
Qed.

Lemma handleLikeDislikePress_toggles_witness :
  "v" ∈ likedVideos (handleLikeDislikePress sample_state "v")
  <-> "v" ∉ likedVideos sample_state.
Proof.
  destruct (handleLikeDislikePress_toggles sample_state "v") as [_ Hsigned].
  destruct Hsigned as (Hflip & _); [by eexists | exact Hflip].
Defined.

Lemma elem_of_derivedLikedVideos (user_id : string) (videos : list DanceVideo)
    (x : string) :
  x ∈ derivedLikedVideos user_id videos
  <-> exists video, video ∈ videos /\ id video = x
                    /\ user_id ∈ default [] (liked_by video).
Proof.
  unfold derivedLikedVideos.
  rewrite elem_of_list_to_set, list_elem_of_fmap. split.
  - intros (video & -> & Hin). apply list_elem_of_filter in Hin as [Hu Hin].
    by exists video.
  - intros (video & Hin & <- & Hu). exists video. split; [done|].
    apply list_elem_of_filter. by split.
Qed.

Lemma optimistic_id (user_id id' : string) (action : Action) (video : DanceVideo) :
  id (optimistic user_id id' action video) = id video.
Proof.
  pose proof (without_likes_optimistic user_id id' action video) as Hw.
  by apply (f_equal id) in Hw.
Qed.

Lemma derivedLikedVideos_like (user_id id' : string) (videos : list DanceVideo) :
  id' ∈ id <$> videos ->
  id' ∉ derivedLikedVideos user_id videos ->
  derivedLikedVideos user_id (optimistic user_id id' like <$> videos)
  = derivedLikedVideos user_id videos ∪ {[ id' ]}.
Proof.
  intros Hcached Hnot. apply set_eq. intros x.
  rewrite elem_of_union, elem_of_singleton, !elem_of_derivedLikedVideos. split.
  - intros (video' & Hin & Hid & Hu).
    apply list_elem_of_fmap in Hin as (video & -> & Hin).
    rewrite optimistic_id in Hid.
    destruct (decide (id video = id')) as [Heq|Hne]; [right; congruence|].
    left. rewrite optimistic_other_video in Hu by done. by exists video.
  - intros [(video & Hin & Hid & Hu) | ->].
    + assert (Hne : id video ≠ id').
      { intros Heq. apply Hnot. apply elem_of_derivedLikedVideos. by exists video. }
      exists video. split; [|done].
      apply list_elem_of_fmap. exists video. split; [|done].
      by rewrite optimistic_other_video.
    + apply list_elem_of_fmap in Hcached as (video & -> & Hin).
      assert (Hnin : user_id ∉ default [] (liked_by video)).
      { intros Hu. apply Hnot. apply elem_of_derivedLikedVideos. by exists video. }
      exists (optimistic user_id (id video) like video). split; [|split].
      * by apply list_elem_of_fmap_2.
      * apply optimistic_id.
      * rewrite optimistic_like_absent by done. simpl.
        apply elem_of_app. right. by apply list_elem_of_singleton.
Qed.

Lemma derivedLikedVideos_dislike (user_id id' : string) (videos : list DanceVideo) :
  derivedLikedVideos user_id (optimistic user_id id' dislike <$> videos)
  = derivedLikedVideos user_id videos ∖ {[ id' ]}.
Proof.
  apply set_eq. intros x.
  rewrite elem_of_difference, elem_of_singleton, !elem_of_derivedLikedVideos. split.
  - intros (video' & Hin & Hid & Hu).
    apply list_elem_of_fmap in Hin as (video & -> & Hin).
    rewrite optimistic_id in Hid.
    destruct (decide (id video = id')) as [Heq|Hne].
    + exfalso. subst id'.
      destruct (decide (user_id ∈ default [] (liked_by video))) as [Hl|Hl].
      * rewrite optimistic_dislike_present in Hu by done. simpl in Hu.
        by apply filter_ne_not_elem in Hu.
      * by rewrite optimistic_dislike_absent in Hu.
    + rewrite optimistic_other_video in Hu by done.
      split; [by exists video | congruence].
  - intros [(video & Hin & Hid & Hu) Hne].
    exists video. split; [|done].
    apply list_elem_of_fmap. exists video. split; [|done].
    rewrite optimistic_other_video; [done | congruence].
Qed.

(** When the liked set is the one read off the cached videos (those
    whose likers include the user), it still is after a press of the
    like button on a cached video: the optimistic update of the cache
    and the update of the liked set agree, so the effect that recomputes
    the liked set from the cache changes nothing. *)
Theorem handleLikeDislikePress_keeps_liked_set (st : State) (videoId : string) :
  initLikedVideos st = st ->
  videoId ∈ id <$> cachedVideos st ->
  initLikedVideos (handleLikeDislikePress st videoId)
  = handleLikeDislikePress st videoId.
Proof.
  intros Hfix Hcached. unfold initLikedVideos.
  rewrite session_user_press.
  destruct (session_user st) as [user_id|] eqn:Hu;
    [|by destruct (queryData (handleLikeDislikePress st videoId))].
  destruct (queryData (handleLikeDislikePress st videoId)) as [videos'|] eqn:Hq';
    [|done].
  apply setLikedVideos_same.
  rewrite (likedVideos_press st videoId user_id Hu).
  unfold handleLikeDislikePress in Hq'. rewrite Hu in Hq'.
  rewrite (onMutate_queryData _ _ user_id Hu) in Hq'. simpl in Hq'.
  unfold cachedVideos in Hcached.
  destruct (queryData st) as [videos|] eqn:Hq; [|discriminate].
  simpl in Hcached. injection Hq' as <-.
  assert (Hlv : likedVideos st = derivedLikedVideos user_id videos).
  { unfold initLikedVideos in Hfix. rewrite Hq, Hu in Hfix.
    apply (f_equal likedVideos) in Hfix. by simpl in Hfix. }
  unfold pressAction. rewrite Hlv.
  destruct (decide (videoId ∈ derivedLikedVideos user_id videos)) as [Hin|Hnin].
  - rewrite (bool_decide_eq_true_2 _ Hin). apply derivedLikedVideos_dislike.
  - rewrite (bool_decide_eq_false_2 _ Hnin). by apply derivedLikedVideos_like.
Qed.

Lemma handleLikeDislikePress_keeps_liked_set_witness :
  initLikedVideos (handleLikeDislikePress sample_state "v")
  = handleLikeDislikePress sample_state "v".
Proof.
  apply (handleLikeDislikePress_keeps_liked_set sample_state "v").
  - unfold initLikedVideos, sample_state. simpl.
    apply setLikedVideos_same. reflexivity.
  - vm_compute. apply list_elem_of_here.
Defined.

End LikeButton.

(** * Properties of the view mutation and of the viewable-items handler *)

Section ViewFacts.
Import Home.

Lemma cachedVideos_viewMutation_onMutate (st : State) (id' : string) :
  cachedVideos (viewMutation_onMutate st id').1
  = view_increment id' <$> cachedVideos st.
Proof.
  unfold cachedVideos, viewMutation_onMutate, setQueryData. simpl.
  destruct (queryData st) eqn:Hq; simpl; [done | by rewrite Hq].
Qed.

Lemma viewMutation_onError_restores (between : State) (context : ViewContext)
    (snapshot : list DanceVideo) :
  view_previousVideos context = Some snapshot ->
  queryData (viewMutation_onError between (Some context)) = Some snapshot.
Proof.
  intros Hprev. unfold viewMutation_onError. simpl. by rewrite Hprev.
Qed.

(** A view increment whose remote call fails leaves, once settled, the
    state as it was, only the refetch asked for.  Its rollback writes
    back the cache as the view mutation found it, so an optimistic like
    applied to the cache while the view call was in flight is discarded
    by it. *)
Theorem failed_view_restores_state (st : State) (id' : string)
    (likePressed : Variables) :
  failed_view st id' = onSettled st
  /\ (forall snapshot,
        queryData st = Some snapshot ->
        queryData
          (viewMutation_onError
             (onMutate (viewMutation_onMutate st id').1 likePressed).1
             (Some (viewMutation_onMutate st id').2))
        = Some snapshot).
Proof.
  split.
  - destruct st as [u q r lv]. unfold failed_view, viewMutation_onMutate,
      viewMutation_onError, setQueryData, onSettled. simpl.
    by destruct q.
  - intros snapshot Hq. by apply viewMutation_onError_restores.
Qed.

Lemma failed_view_restores_state_witness :
  queryData
    (viewMutation_onError
       (onMutate (viewMutation_onMutate sample_state "v").1 like_v).1
       (Some (viewMutation_onMutate sample_state "v").2))
  = Some [sample_video].
Proof.
  destruct (failed_view_restores_state sample_state "v" like_v) as [_ Hback].
  apply Hback. reflexivity.
Defined.

Lemma view_increment_id (id' : string) (video : DanceVideo) :
  id (view_increment id' video) = id video.
Proof. unfold view_increment. by destruct (decide (id video = id')). Qed.

Lemma onViewableItemsChanged_seen (feed : Feed) (first : ViewToken)
    (rest : list ViewToken) :
  vt_id first ∈ viewedVideos feed ->
  viewedVideos (onViewableItemsChanged feed (first :: rest)) = viewedVideos feed
  /\ view_calls (onViewableItemsChanged feed (first :: rest)) = view_calls feed
  /\ feed_state (onViewableItemsChanged feed (first :: rest)) = feed_state feed.
Proof.
  intros Hseen. simpl. by rewrite (bool_decide_eq_true_2 _ Hseen).
Qed.

Lemma onViewableItemsChanged_fresh (feed : Feed) (first : ViewToken)
    (rest : list ViewToken) :
  vt_id first ∉ viewedVideos feed ->
  viewedVideos (onViewableItemsChanged feed (first :: rest))
  = viewedVideos feed ∪ {[ vt_id first ]}
  /\ view_calls (onViewableItemsChanged feed (first :: rest))
     = view_calls feed ++ [vt_id first]
  /\ feed_state (onViewableItemsChanged feed (first :: rest))
     = (viewMutation_onMutate (feed_state feed) (vt_id first)).1.
Proof.
  intros Hfresh. simpl. by rewrite (bool_decide_eq_false_2 _ Hfresh).
Qed.

(** The state of the feed after a run of viewable-items events, told
    from the state before: the viewed set only grows, the new calls of
    the view mutation are the newly viewed identifiers, each once, and
    the cached videos with a newly viewed identifier have one view
    more. *)
Lemma feed_run_from (events : list (list ViewToken)) (feed : Feed) :
  (forall x, x ∈ viewedVideos feed -> x ∈ viewedVideos (feed_run feed events))
  /\ (exists new,
        view_calls (feed_run feed events) = view_calls feed ++ new
        /\ NoDup new
        /\ forall x, x ∈ new <-> x ∈ viewedVideos (feed_run feed events)
                                 /\ x ∉ viewedVideos feed)
  /\ cachedVideos (feed_state (feed_run feed events))
     = (fun video =>
          if decide (id video ∈ viewedVideos (feed_run feed events)
                     /\ id video ∉ viewedVideos feed)
          then with_views video (views video + 1) else video)
       <$> cachedVideos (feed_state feed).
Proof.
  revert feed. induction events as [|event events IH]; intros feed.
  - simpl. split; [done|]. split.
    + exists []. split; [by rewrite app_nil_r|]. split; [apply NoDup_nil_2|].
      intros x. split; [intros Hx; inversion Hx | by intros [? ?]].
    + rewrite <- (list_fmap_id (cachedVideos (feed_state feed))) at 1.
      apply list_fmap_ext. intros i video _. simpl.
      rewrite decide_False; [done | by intros [? ?]].
  - unfold feed_run in *. cbn [foldl].
    destruct (IH (onViewableItemsChanged feed event))
      as (Hgrow & (new & Hcalls & Hnd & Hnew) & Hcache).
    set (final := foldl onViewableItemsChanged
                    (onViewableItemsChanged feed event) events) in *.
    destruct event as [|first rest].
    { split; [exact Hgrow|]. split; [by exists new | exact Hcache]. }
    destruct (decide (vt_id first ∈ viewedVideos feed)) as [Hseen|Hfresh].
    + destruct (onViewableItemsChanged_seen feed first rest Hseen)
        as (HV & HC & HS).
      rewrite HV in Hgrow, Hnew, Hcache. rewrite HC in Hcalls. rewrite HS in Hcache.
      split; [exact Hgrow|]. split; [by exists new | exact Hcache].
    + destruct (onViewableItemsChanged_fresh feed first rest Hfresh)
        as (HV & HC & HS).
      rewrite HV in Hgrow, Hnew, Hcache. rewrite HC in Hcalls. rewrite HS in Hcache.
      assert (Hc : vt_id first ∈ viewedVideos final).
      { apply Hgrow, elem_of_union. right. by apply elem_of_singleton. }
      split; [|split].
      * intros x Hx. apply Hgrow, elem_of_union. by left.
      * exists (vt_id first :: new). split; [by rewrite Hcalls, <- app_assoc|].
        split.
        -- apply NoDup_cons. split; [|done]. rewrite Hnew.
           intros [_ Hn]. apply Hn, elem_of_union. right. by apply elem_of_singleton.
        -- intros x. rewrite elem_of_cons, Hnew, elem_of_union, elem_of_singleton.
           destruct (decide (x = vt_id first)) as [->|Hx]; [|tauto].
           split; [by intros _ | by left].
      * rewrite Hcache, cachedVideos_viewMutation_onMutate, <- list_fmap_compose.
        apply list_fmap_ext. intros i video _. simpl.
        rewrite view_increment_id. unfold view_increment.
        destruct (decide (id video = vt_id first)) as [Heq|Hne].
        -- rewrite Heq. rewrite decide_False.
           ++ by rewrite decide_True.
           ++ intros [_ Hn]. apply Hn, elem_of_union. right.
              by apply elem_of_singleton.
        -- apply decide_ext. rewrite elem_of_union, elem_of_singleton. tauto.
Qed.

Lemma viewedVideos_run (events : list (list ViewToken)) (feed : Feed) (x : string) :
  x ∈ viewedVideos (feed_run feed events)
  <-> x ∈ viewedVideos feed
      \/ exists first rest, (first :: rest) ∈ events /\ vt_id first = x.
Proof.
  revert feed. induction events as [|event events IH]; intros feed.
  - simpl. split; [by left|]. intros [Hx|(first & rest & Hin & _)]; [done|].
    inversion Hin.
  - unfold feed_run in *. simpl. rewrite IH.
    destruct event as [|first rest]; simpl.
    + split.
      * intros [Hx|(f & r & Hin & Hf)]; [by left|].
        right. exists f, r. split; [by apply list_elem_of_further | done].
      * intros [Hx|(f & r & Hin & Hf)]; [by left|].
        apply elem_of_cons in Hin as [Hin|Hin]; [discriminate|].
        right. by exists f, r.
    + assert (Hv : forall y,
                y ∈ viewedVideos (onViewableItemsChanged feed (first :: rest))
                <-> y ∈ viewedVideos feed \/ y = vt_id first).
      { intros y. simpl.
        destruct (decide (vt_id first ∈ viewedVideos feed)) as [Hseen|Hfresh].
        - rewrite (bool_decide_eq_true_2 _ Hseen). simpl.
          split; [by left | by intros [?| ->]].
        - rewrite (bool_decide_eq_false_2 _ Hfresh). simpl.
          by rewrite elem_of_union, elem_of_singleton. }
      simpl in Hv. rewrite Hv. split.
      * intros [[Hx| ->]|(f & r & Hin & Hf)].
        -- by left.
        -- right. exists first, rest. split; [apply list_elem_of_here | done].
        -- right. exists f, r. split; [by apply list_elem_of_further | done].
      * intros [Hx|(f & r & Hin & Hf)]; [by left; left|].
        apply elem_of_cons in Hin as [Hin|Hin].
        -- injection Hin as -> ->. left. by right.
        -- right. by exists f, r.
Qed.

Example views_counted_once_run :
  let feed :=
    feed_run (initialFeed sample_state)
      [ [ {| vt_id := "v"; vt_index := 0 |} ]; [];
        [ {| vt_id := "w"; vt_index := 1 |}; {| vt_id := "v"; vt_index := 0 |} ];
        [ {| vt_id := "v"; vt_index := 0 |} ] ] in
  view_calls feed = ["v"; "w"]
  /\ views <$> cachedVideos (feed_state feed) = [4]
  /\ currentIndex feed = 0%nat.
Proof. vm_compute. repeat split. Qed.

(** From the start of a session, whatever the viewable-items events: the
    view mutation is called once for each video that was first in some
    event and never twice for the same video, and every cached video so
    viewed has exactly one view more, the others none. *)
Theorem views_counted_once (st : State) (events : list (list ViewToken)) :
  let feed := feed_run (initialFeed st) events in
  NoDup (view_calls feed)
  /\ (forall x, x ∈ view_calls feed
                <-> exists first rest, (first :: rest) ∈ events /\ vt_id first = x)
  /\ cachedVideos (feed_state feed)
     = (fun video =>
          if decide (id video ∈ view_calls feed)
          then with_views video (views video + 1) else video)
       <$> cachedVideos st.
Proof.
  intros feed. subst feed.
  destruct (feed_run_from events (initialFeed st))
    as (_ & (new & Hcalls & Hnd & Hnew) & Hcache).
  simpl in Hcalls, Hnew, Hcache. rewrite Hcalls.
  assert (Hiff : forall x, x ∈ new <-> x ∈ viewedVideos (feed_run (initialFeed st) events)).
  { intros x. rewrite Hnew. split; [tauto|]. intros Hx. split; [done|]. set_solver. }
  split; [done|]. split.
  - intros x. rewrite Hiff, viewedVideos_run. simpl. split.
    + intros [Hx|Hx]; [set_solver | done].
    + by right.
  - rewrite Hcache. apply list_fmap_ext. intros i video _. simpl.
    apply decide_ext. rewrite Hiff. split; [tauto|]. intros Hx. split; [done|].
    set_solver.
Qed.

End ViewFacts.

(** * Properties of the leaderboard screen *)

Section ScreenFacts.
Import LeaderboardScreen.

Lemma leaderboardEntries_rank_positive (stamp : nat -> string)
    (userRankings : list Leaderboard.UserScore) (entry : Leaderboard.LeaderboardEntry) :
  entry ∈ Leaderboard.leaderboardEntries stamp userRankings ->
  1 <= Leaderboard.le_rank entry.
Proof.
  intros Hin. apply list_elem_of_lookup in Hin as [i Hi].
  unfold Leaderboard.leaderboardEntries in Hi.
  rewrite list_lookup_imap in Hi.
  destruct (userRankings !! i) as [user|]; [|discriminate].
  simpl in Hi. injection Hi as <-. simpl. lia.
Qed.

Lemma getRankIcon_is_Some (rank : Z) :
  is_Some (getRankIcon rank) <-> rank = 1 \/ rank = 2 \/ rank = 3.
Proof.
  unfold getRankIcon.
  destruct (rank =? 1) eqn:H1; [apply Z.eqb_eq in H1; split; [tauto | by eexists]|].
  destruct (rank =? 2) eqn:H2; [apply Z.eqb_eq in H2; split; [tauto | by eexists]|].
  destruct (rank =? 3) eqn:H3; [apply Z.eqb_eq in H3; split; [tauto | by eexists]|].
  apply Z.eqb_neq in H1, H2, H3. split; [by intros [? ?] | lia].
Qed.

(** The screen lists one row per fetched row, in the same order; a row
    that shows an entry published by the job carries the published rank
    and score, wherever it stands in the list (the fallback to the
    position is not used, the job's ranks starting at 1), and it gets a
    trophy exactly when that rank is at most 3. *)
Theorem transformedData_shows_published (stamp : nat -> string)
    (userRankings : list Leaderboard.UserScore)
    (leaderboardData : list LeaderboardEntry) :
  length (transformedData (Some leaderboardData)) = length leaderboardData
  /\ (forall (i : nat) (item : LeaderboardEntry)
             (entry : Leaderboard.LeaderboardEntry),
        leaderboardData !! i = Some item ->
        entry ∈ Leaderboard.leaderboardEntries stamp userRankings ->
        shows item entry ->
        exists row,
          transformedData (Some leaderboardData) !! i = Some row
          /\ row_rank row = Leaderboard.le_rank entry
          /\ total_score row = Leaderboard.le_score entry
          /\ (is_Some (getRankIcon (row_rank row))
              <-> Leaderboard.le_rank entry <= 3)).
Proof.
  unfold transformedData. split; [apply length_imap|].
  intros i item entry Hi Hin [Hrank Hscore].
  pose proof (leaderboardEntries_rank_positive stamp userRankings entry Hin) as Hpos.
  rewrite list_lookup_imap, Hi. simpl. eexists. split; [reflexivity|]. simpl.
  rewrite Hrank. simpl.
  assert (Hnz : (Leaderboard.le_rank entry =? 0) = false) by (apply Z.eqb_neq; lia).
  rewrite Hnz. split; [done|]. split; [done|].
  rewrite getRankIcon_is_Some. lia.
Qed.

Lemma transformedData_shows_published_witness :
  exists row,
    transformedData
      (Some [ {| entry_id := "r1"; rank := Some 2; score := 50; video := None |} ])
      !! 0%nat = Some row
    /\ row_rank row = 2.
Proof.
  destruct (transformedData_shows_published (fun _ => "t")
              (Leaderboard.userRankings Leaderboard.sample_entries)
              [ {| entry_id := "r1"; rank := Some 2; score := 50; video := None |} ])
    as [_ Hrow].
  destruct (Hrow 0%nat
              {| entry_id := "r1"; rank := Some 2; score := 50; video := None |}
              {| Leaderboard.le_video_id := "b"; Leaderboard.le_score := 50;
                 Leaderboard.le_rank := 2; Leaderboard.le_created_at := "t" |})
    as (row & Hlookup & Hrank & _).
  - reflexivity.
  - vm_compute. apply list_elem_of_further, list_elem_of_here.
  - split; reflexivity.
  - exists row. split; [exact Hlookup | exact Hrank].
Defined.

End ScreenFacts.

(** * Properties of a whole like mutation *)

Section MutationLife.
Import Home Api.

(** A like mutation makes at most one remote procedure call: none when
    the session has no user, otherwise the call that matches the action,
    for the pressed video and the session's user.  When the call fails,
    or was not made, the feed ends as it was before the press; when it
    succeeds, the feed keeps the optimistic update.  Either way the
    refetch is asked for. *)
Theorem likeMutation_mutate_outcome (env : Env) (st : State) (variables : Variables) :
  let rpc user_id :=
    match v_action variables with
    | like => like_video (v_id variables) user_id
    | dislike => unlike_video (v_id variables) user_id
    end in
  match auth_user env with
  | None => likeMutation_mutate env st variables = (onSettled st, [])
  | Some user_id =>
      match rpc_error env (rpc user_id) with
      | Some _ =>
          likeMutation_mutate env st variables = (onSettled st, [rpc user_id])
      | None =>
          likeMutation_mutate env st variables
          = (onSettled (onMutate st variables).1, [rpc user_id])
      end
  end.
Proof.
  intros rpc. subst rpc.
  pose proof (failed_mutation_onSettled st variables) as Hfail.
  unfold failed_mutation in Hfail. unfold likeMutation_mutate, handleLikeDislike.
  destruct (onMutate st variables) as [st1 context].
  destruct (auth_user env) as [user_id|]; [|by rewrite Hfail].
  destruct variables as [i a]. destruct a; simpl.
  - destruct (rpc_error env (like_video i user_id)); [by rewrite Hfail | done].
  - destruct (rpc_error env (unlike_video i user_id)); [by rewrite Hfail | done].
Qed.

End MutationLife.

(** * The published rows and their replacement *)

Section Publication.
Import Leaderboard.

Lemma get_of_elem {V} (m : JsMap.t V) (k : string) (v : V) :
  NoDup (JsMap.keys m) -> (k, v) ∈ m -> JsMap.get m k = Some v.
Proof.
  unfold JsMap.keys. induction m as [|[k' v'] m IH]; simpl; intros Hnd Hin.
  - inversion Hin.
  - apply NoDup_cons in Hnd as [Hk' Hnd].
    apply elem_of_cons in Hin as [Heq|Hin].
    + injection Heq as -> ->. by rewrite decide_True.
    + rewrite decide_False; [by apply IH|].
      intros ->. apply Hk'. apply list_elem_of_fmap. by exists (k', v).
Qed.

Lemma values_get {V} (m : JsMap.t V) (v : V) :
  NoDup (JsMap.keys m) -> v ∈ JsMap.values m -> exists k, JsMap.get m k = Some v.
Proof.
  intros Hnd Hin. unfold JsMap.values in Hin.
  apply list_elem_of_fmap in Hin as ([k v'] & -> & Hin).
  exists k. by apply get_of_elem.
Qed.

(** Every entry the job computes refers to a video of the corpus and
    carries the score computed for that video, which lies between 0 and
    100; its rank is at least 1 and at most the number of entries. *)
Theorem computed_entries_from_corpus (env : Env) (w : World) (videos : list Video)
    (entry : LeaderboardEntry) :
  entry ∈ computed_entries env w videos ->
  (exists video,
      video ∈ videos
      /\ le_video_id entry = id video
      /\ le_score entry = vs_score (scored videos video))
  /\ 0 <= le_score entry <= 100
  /\ 1 <= le_rank entry <= Z.of_nat (length (computed_entries env w videos)).
Proof.
  intros Hin. apply list_elem_of_lookup in Hin as [i Hi].
  pose proof (lookup_lt_Some _ _ _ Hi) as Hlt.
  unfold computed_entries, leaderboardEntries in Hi.
  rewrite list_lookup_imap in Hi.
  destruct (userRankings (userBestVideos (videoScores videos)) !! i)
    as [user|] eqn:Huser; [|discriminate].
  simpl in Hi. injection Hi as <-. simpl.
  assert (Hval : user ∈ JsMap.values (userBestVideos (videoScores videos))).
  { rewrite <- (sort_Permutation compareRankings). by eapply list_elem_of_lookup_2. }
  destruct (values_get _ _ (userBestVideos_NoDup _) Hval) as [u Hget].
  destruct (userBestVideos_first_best _ _ _ Hget)
    as (pre & b & post & Hsplit & _ & -> & _).
  assert (Hb : b ∈ videoScores videos).
  { rewrite Hsplit. apply elem_of_app. right. apply list_elem_of_here. }
  unfold videoScores in Hb. apply list_elem_of_fmap in Hb as (video & -> & Hvid).
  split; [|split].
  - exists video. by split.
  - simpl. unfold calculateScore. lia.
  - lia.
Qed.

Lemma computed_entries_from_corpus_witness :
  exists video, video ∈ sample_videos /\ "t" = id video.
Proof.
  destruct (computed_entries_from_corpus sample_env published_world sample_videos
              {| le_video_id := "t"; le_score := 100; le_rank := 1;
                 le_created_at := "2025-01-01T00:00:00.000Z" |})
    as ((video & Hin & Hid & _) & _).
  - vm_compute. apply list_elem_of_here.
  - exists video. split; [exact Hin | exact Hid].
Defined.

Lemma surviving_rows_inserted (env : Env) (entries : list LeaderboardEntry) :
  (forall k, new_row_id env k ≠ nil_uuid) ->
  surviving_rows (inserted_rows env entries) = [].
Proof.
  intros Hfresh. unfold surviving_rows, inserted_rows.
  generalize (new_row_id env) Hfresh. clear Hfresh.
  induction entries as [|e entries IH]; intros gen Hgen; [done|].
  rewrite imap_cons, filter_cons_False by (simpl; apply Hgen).
  apply (IH (gen ∘ S)). intros k. apply Hgen.
Qed.

Lemma surviving_rows_idemp (rows : list LeaderboardRow) :
  surviving_rows (surviving_rows rows) = surviving_rows rows.
Proof.
  unfold surviving_rows. apply list_filter_filter_l. done.
Qed.

Lemma handler_success_board (env : Env) (req : Request) (w : World)
    (video : Video) (videos : list Video) :
  method req ≠ "OPTIONS" ->
  select_videos env = inr (Some (video :: videos)) ->
  delete_error env = None ->
  insert_error env = None ->
  leaderboard (handler env req w).2
  = surviving_rows (leaderboard w)
    ++ inserted_rows env (computed_entries env w (video :: videos)).
Proof.
  intros Hm Hsel Hdel Hins.
  rewrite (proj2 (handler_world env req w Hm)).
  apply (update_leaderboard_success env w video videos Hsel Hdel Hins).
Qed.

(** Two successful runs in a row: when the store never gives a new row
    the nil UUID as its [id], the table after the second run holds the
    rows of the second run and none of the first; only rows with the nil
    UUID that were there at the start are still there. *)
Theorem handler_replaces_previous_run (env1 env2 : Env) (req : Request) (w : World)
    (video1 video2 : Video) (videos1 videos2 : list Video) :
  method req ≠ "OPTIONS" ->
  select_videos env1 = inr (Some (video1 :: videos1)) ->
  delete_error env1 = None -> insert_error env1 = None ->
  select_videos env2 = inr (Some (video2 :: videos2)) ->
  delete_error env2 = None -> insert_error env2 = None ->
  (forall k, new_row_id env1 k ≠ nil_uuid) ->
  leaderboard (handler env2 req (handler env1 req w).2).2
  = surviving_rows (leaderboard w)
    ++ inserted_rows env2
         (computed_entries env2 (handler env1 req w).2 (video2 :: videos2)).
Proof.
  intros Hm Hsel1 Hdel1 Hins1 Hsel2 Hdel2 Hins2 Hfresh.
  rewrite (handler_success_board env2 req _ video2 videos2 Hm Hsel2 Hdel2 Hins2).
  rewrite (handler_success_board env1 req w video1 videos1 Hm Hsel1 Hdel1 Hins1).
  f_equal. unfold surviving_rows at 1. rewrite filter_app.
  fold (surviving_rows (surviving_rows (leaderboard w))).
  fold (surviving_rows
          (inserted_rows env1 (computed_entries env1 w (video1 :: videos1)))).
  by rewrite surviving_rows_idemp, surviving_rows_inserted, app_nil_r.
Qed.

Lemma handler_replaces_previous_run_witness :
  length (leaderboard
            (handler sample_env post (handler sample_env post published_world).2).2)
  = 2%nat.
Proof.
  rewrite (handler_replaces_previous_run sample_env sample_env post published_world
             {| id := "n"; title := "new"; likes := Some 5; views := Some 50;
                user_id := "u1";
                users := Some {| username := Some "ann"; avatar_url := None |} |}
             {| id := "n"; title := "new"; likes := Some 5; views := Some 50;
                user_id := "u1";
                users := Some {| username := Some "ann"; avatar_url := None |} |}
             [ {| id := "t"; title := "top"; likes := Some 10; views := Some 100;
                  user_id := "u2"; users := None |};
               {| id := "o"; title := "old"; likes := Some 5; views := Some 50;
                  user_id := "u1";
                  users := Some {| username := Some "ann"; avatar_url := None |} |} ]
             [ {| id := "t"; title := "top"; likes := Some 10; views := Some 100;
                  user_id := "u2"; users := None |};
               {| id := "o"; title := "old"; likes := Some 5; views := Some 50;
                  user_id := "u1";
                  users := Some {| username := Some "ann"; avatar_url := None |} |} ]).
  - vm_compute. reflexivity.
  - vm_compute. discriminate.
  - reflexivity.
  - reflexivity.
  - reflexivity.
  - reflexivity.
  - reflexivity.
  - reflexivity.
  - intros k. simpl. destruct (decide (k = 0%nat)); vm_compute; discriminate.
Defined.

End Publication.
